(** * Marketplace server: order life cycle and rate limiter

    A shallow embedding of
    - [scripts/src/models/orders.ts]          (module [db]),
    - [scripts/src/public/services/orders.ts] (module [orders]),
    - [scripts/src/utils/RateLimit.ts]        (module [RateLimit]),
    followed by the properties of the order engine and of the rate limiter.

    Conventions.  A JavaScript [Date] is the number of milliseconds since the
    epoch ([Z]); an ISO rendering of a date is kept as the instant it denotes.
    The relational store is a list of rows in insertion order, [save] being an
    upsert on the primary key [id].  Every [await]ed call is executed in
    place; a save that the source starts without awaiting is queued in
    [background].  [new Date()] and [generateId] read two oracles of the
    environment, indexed by the number of reads made so far.
    [createMarketplaceOrder] is also given await by await ([orders.resume]),
    for calls that overlap. *)

From Stdlib Require Import ZArith QArith Qround Qminmax Lia Lqa.
From Stdlib Require Import Strings.String Strings.Ascii OrderedTypeEx.
From stdpp Require Import base decidable option list sorting gmap strings pretty.

Local Open Scope string_scope.
Local Open Scope list_scope.
Local Open Scope Z_scope.

(** ** models/offers.ts (the parts the order services read) *)

Module offerDb.

Inductive OfferType := earn | spend.

(** Modelled from the spec: [BlockchainData] is declared in
    models/offers.ts, which is not among the sources; the order services
    only build and forward its [recipient_address]. *)
Record BlockchainData := {
  transaction_id : option string;
  sender_address : option string;
  recipient_address : option string;
}.

Record Cap := { total : Z; per_user : Z }.

(** [title], [description] and the optional marketplace / external extras
    of an order's [meta] column. *)
Record OrderMeta := {
  title : string;
  description : string;
  call_to_action : option string;
  content : option string;
  wallet_address : option string;
}.

(** Modelled from the spec: the [Offer] entity ("carries cap.total,
    cap.per_user and amount/type/meta"), read-only here. *)
Record Offer := {
  id : string;
  amount : Z;
  type : OfferType;
  cap : Cap;
  order_meta : OrderMeta;     (* offer.meta.order_meta *)
}.

(** [Offer.findOne(offerId)] *)
Definition findOne (offers : list Offer) (offerId : string) : option Offer :=
  head (filter (λ o, id o = offerId) offers).

End offerDb.

(** The payload [validateSpendJWT] yields for a valid spend JWT. *)
Record ExternalOffer := {
  jwt_offer_id : string;
  jwt_amount : Z;
  jwt_title : string;
  jwt_description : string;
  jwt_wallet_address : string;
}.

(** ** models/orders.ts *)

Module db.

Inductive OrderOrigin := marketplace | external.

(** [OpenOrderStatus = OrderStatus | "opened"] *)
Inductive OpenOrderStatus := opened | pending | completed | failed.

(** [OrderStatusAndNegation]: a status, or a status prefixed by "!". *)
Inductive OrderStatusAndNegation :=
| Is (s : OpenOrderStatus)
| IsNot (s : OpenOrderStatus).

Record OrderError := {
  code : Z;
  error_name : string;        (* field [error] of the source *)
  message : option string;
}.

Record Order := {
  id : string;
  origin : OrderOrigin;
  type : offerDb.OfferType;
  blockchainData : option offerDb.BlockchainData;
  userId : string;
  offerId : string;
  meta : offerDb.OrderMeta;
  error : option OrderError;
  amount : Z;
  status : OpenOrderStatus;
  createdDate : Z;
  currentStatusDate : option Z;   (* column completion_date, nullable *)
  value : option string;
}.

(** A [Date] object: an instant, or the Invalid Date that
    [moment(null).toDate()] produces for a row without completion_date. *)
Inductive Date := date (ms : Z) | InvalidDate.

(** [a < b] and [a > b] on dates; any comparison with Invalid Date (NaN)
    is false. *)
Definition date_lt (a b : Date) : bool :=
  match a, b with
  | date x, date y => x <? y
  | _, _ => false
  end.
Definition date_gt (a b : Date) : bool := date_lt b a.

(** [moment(d).add(n, unit).toDate()], with [n] given in milliseconds.  An
    absent [d] is the null of a row read from the table, which moment turns
    into an invalid date (the orders the services build in memory get their
    status date from [setStatus]). *)
Definition moment_add (d : option Z) (ms : Z) : Date :=
  match d with
  | Some t => date (t + ms)
  | None => InvalidDate
  end.

Definition minutes (n : Z) : Z := n * 60000.
Definition seconds (n : Z) : Z := n * 1000.

(** [setStatus(status)]: [now] is the value of its [new Date()]. *)
Definition setStatus (s : OpenOrderStatus) (now : Z) (o : Order) : Order :=
  {| id := id o; origin := origin o; type := type o;
     blockchainData := blockchainData o; userId := userId o;
     offerId := offerId o; meta := meta o; error := error o;
     amount := amount o;
     status := s;
     createdDate := createdDate o;
     currentStatusDate := Some now;
     value := value o |}.

(** [get expirationDate(): Date | null] *)
Definition expirationDate (o : Order) : option Date :=
  match status o with
  | opened => Some (moment_add (Some (createdDate o)) (minutes 10))
  | pending => Some (moment_add (currentStatusDate o) (seconds 45))
  | _ => None
  end.

(** [isMarketplaceOrder()] / [isExternalOrder()]: the class of an order is
    the one its [origin] was stamped from ([CLASS_ORIGIN]). *)
Definition isMarketplaceOrder (o : Order) : bool :=
  match origin o with marketplace => true | external => false end.
Definition isExternalOrder (o : Order) : bool :=
  match origin o with external => true | marketplace => false end.

#[global] Instance OpenOrderStatus_eq_dec : EqDecision OpenOrderStatus.
Proof. solve_decision. Defined.
#[global] Instance OrderOrigin_eq_dec : EqDecision OrderOrigin.
Proof. solve_decision. Defined.

(** [updateQueryWithStatus]: the row filter a status argument adds. *)
Definition updateQueryWithStatus (q : option OrderStatusAndNegation)
    (o : Order) : Prop :=
  match q with
  | None => True
  | Some (IsNot s) => status o ≠ s
  | Some (Is s) => status o = s
  end.

#[global] Instance updateQueryWithStatus_dec q o :
  Decision (updateQueryWithStatus q o).
Proof. destruct q as [[s|s]|]; simpl; apply _. Defined.

(** [CLASS_ORIGIN] filter of [getOne] / [getAll]: none on [Order] itself
    ([CLASS_ORIGIN = null]), the subclass's origin otherwise. *)
Definition originFilter (cls : option OrderOrigin) (o : Order) : Prop :=
  match cls with
  | None => True
  | Some c => origin o = c
  end.

#[global] Instance originFilter_dec cls o : Decision (originFilter cls o).
Proof. destruct cls; simpl; apply _. Defined.

(** [getOne(orderId, status?)] called on class [cls]. *)
Definition getOne (cls : option OrderOrigin) (rows : list Order)
    (orderId : string) (q : option OrderStatusAndNegation) : option Order :=
  head (filter (λ o, id o = orderId ∧ updateQueryWithStatus q o
                     ∧ originFilter cls o) rows).

(** [ORDER BY completion_date DESC, id DESC].  [Lt] reads "comes first".
    Where rows without a completion_date go is the database's choice
    ([nulls_first]: true on PostgreSQL, false on SQLite). *)
Definition completion_date_desc (nulls_first : bool) (a b : option Z)
    : comparison :=
  match a, b with
  | None, None => Eq
  | None, Some _ => if nulls_first then Lt else Gt
  | Some _, None => if nulls_first then Gt else Lt
  | Some x, Some y => Z.compare y x
  end.

Definition id_desc (a b : string) : comparison := String.compare b a.

Definition order_by (nulls_first : bool) (x y : Order) : comparison :=
  match completion_date_desc nulls_first
          (currentStatusDate x) (currentStatusDate y) with
  | Eq => id_desc (id x) (id y)
  | c => c
  end.

Definition comes_first (nulls_first : bool) (x y : Order) : Prop :=
  order_by nulls_first x y ≠ Gt.

#[global] Instance comparison_eq_dec : EqDecision comparison.
Proof. solve_decision. Defined.

#[global] Instance comes_first_dec nf x y : Decision (comes_first nf x y).
Proof. unfold comes_first; apply _. Defined.

(** [getAll(userId, status?, limit?)] called on class [cls]; [limit] is
    applied only when truthy ([if (limit)]). *)
Definition getAll (cls : option OrderOrigin) (nulls_first : bool)
    (rows : list Order) (user : string)
    (q : option OrderStatusAndNegation) (limit : option nat) : list Order :=
  let query :=
    merge_sort (comes_first nulls_first)
      (filter (λ o, userId o = user ∧ updateQueryWithStatus q o
                    ∧ originFilter cls o) rows) in
  match limit with
  | Some (S n) => take (S n) query
  | _ => query
  end.

(** [findOne({ id: orderId })] *)
Definition findOne_by_id (rows : list Order) (orderId : string)
    : option Order :=
  head (filter (λ o, id o = orderId) rows).

(** [findOne({ where: { userId, offerId, status: "opened" } })] *)
Definition findOne_opened (rows : list Order) (user offer : string)
    : option Order :=
  head (filter (λ o, userId o = user ∧ offerId o = offer
                     ∧ status o = opened) rows).

(** [count({ where: { offerId } })] *)
Definition count_offer (rows : list Order) (offer : string) : Z :=
  Z.of_nat (length (filter (λ o, offerId o = offer) rows)).

(** [count({ where: { userId, offerId } })] *)
Definition count_user_offer (rows : list Order) (user offer : string) : Z :=
  Z.of_nat (length (filter (λ o, userId o = user ∧ offerId o = offer) rows)).

(** [order.save()]: update the row with this primary key, insert
    otherwise. *)
Fixpoint save (o : Order) (rows : list Order) : list Order :=
  match rows with
  | [] => [o]
  | r :: rest =>
      if decide (id r = id o) then o :: rest else r :: save o rest
  end.

(** [order.remove()] *)
Definition remove (o : Order) (rows : list Order) : list Order :=
  filter (λ r, id r ≠ id o) rows.

End db.

(** ** The environment of the services *)

(** What the services read from collaborators that are not in the sources. *)
Record Env := {
  (** the instant returned by the n-th [new Date()] *)
  clock : nat → Z;
  (** the n-th identifier drawn by [generateId(IdPrefix.Transaction)] *)
  generateId : nat → string;
  (** [validateSpendJWT(jwt)]: the offer of a valid token, [None] when it
      throws *)
  validateSpendJWT : string → option ExternalOffer;
  (** [offerContents.isValid(offerId, form)] *)
  isValid : string → option string → bool;
  (** [payment.payTo(walletAddress, appId, amount, orderId)]: whether the
      request is accepted ([false]: the call throws) *)
  payTo : string → string → Z → string → bool;
  (** placement of NULL completion dates under [DESC] *)
  nulls_first : bool;
}.

(** Observable side effects, in the order they happen. *)
Inductive Event :=
| Saved (o : db.Order)                                   (* awaited save *)
| SaveStarted (o : db.Order)                             (* save not awaited *)
| Removed (orderId : string)
| Paid (walletAddress appId : string) (amount : Z) (orderId : string)
| SubmitMetric (t : offerDb.OfferType) (offerId : string).

Record World := {
  orders : list db.Order;          (* table "orders", committed rows *)
  offers : list offerDb.Offer;     (* table "offers" *)
  background : list db.Order;      (* saves in flight, oldest first *)
  ticks : nat;                     (* [new Date()] calls made so far *)
  drawn : nat;                     (* identifiers generated so far *)
  trace : list Event;              (* newest last *)
}.

(** The messages of the [Error]s the services throw. *)
Inductive Error :=
| NoSuchOrderOrOpen (orderId : string)   (* "no such order _ or order is open" *)
| OfferNotFound (offerId : string)       (* "cannot create order, offer _ not found" *)
| OfferCapReached (offerId : string)     (* "offer _ cap reached" *)
| NoSuchOrder (orderId : string)         (* "no such order _" *)
| OpenOrderExpired (orderId : string)    (* "open order _ has expired" *)
| NoSuchOffer (offerId : string)         (* "no such offer _" *)
| InvalidForm (orderId : string)         (* "submitted form is invalid for _" *)
| NoSuchOpenOrder (orderId : string)     (* "no such open order _" *)
| OpenedNotReturned                      (* "opened orders should not be returned" *)
| InvalidJWT                             (* thrown by validateSpendJWT *)
| PaymentError                           (* thrown by payment.payTo *)
| NoExpirationDate.                      (* [expirationDate!.toISOString()] on null / Invalid Date *)

Definition error_message (e : Error) : string :=
  match e with
  | NoSuchOrderOrOpen i => "no such order " +:+ i +:+ " or order is open"
  | OfferNotFound o => "cannot create order, offer " +:+ o +:+ " not found"
  | OfferCapReached o => "offer " +:+ o +:+ " cap reached"
  | NoSuchOrder i => "no such order " +:+ i
  | OpenOrderExpired i => "open order " +:+ i +:+ " has expired"
  | NoSuchOffer o => "no such offer " +:+ o
  | InvalidForm i => "submitted form is invalid for " +:+ i
  | NoSuchOpenOrder i => "no such open order " +:+ i
  | OpenedNotReturned => "opened orders should not be returned"
  | InvalidJWT => "invalid jwt"
  | PaymentError => "payment failed"
  | NoExpirationDate => "no expiration date"
  end.

(** ** A state-and-exception monad for the async functions *)

Inductive Outcome (A : Type) :=
| Returned (a : A)
| Thrown (e : Error).
Arguments Returned {A} a.
Arguments Thrown {A} e.

Definition M (A : Type) : Type := World → Outcome A * World.

Definition ret {A} (a : A) : M A := λ w, (Returned a, w).
Definition throw {A} (e : Error) : M A := λ w, (Thrown e, w).
Definition bind {A B} (k : A → M B) (c : M A) : M B :=
  λ w, match c w with
       | (Returned a, w') => k a w'
       | (Thrown e, w') => (Thrown e, w')
       end.

(** [x ← c; k] awaits [c] and continues with [k]. *)
#[global] Instance M_ret : MRet M := @ret.
#[global] Instance M_bind : MBind M := @bind.

Definition set_orders (rows : list db.Order) (w : World) : World :=
  {| orders := rows; offers := offers w; background := background w;
     ticks := ticks w; drawn := drawn w; trace := trace w |}.
Definition set_background (q : list db.Order) (w : World) : World :=
  {| orders := orders w; offers := offers w; background := q;
     ticks := ticks w; drawn := drawn w; trace := trace w |}.
Definition set_ticks (n : nat) (w : World) : World :=
  {| orders := orders w; offers := offers w; background := background w;
     ticks := n; drawn := drawn w; trace := trace w |}.
Definition set_drawn (n : nat) (w : World) : World :=
  {| orders := orders w; offers := offers w; background := background w;
     ticks := ticks w; drawn := n; trace := trace w |}.
Definition emit (e : Event) (w : World) : World :=
  {| orders := orders w; offers := offers w; background := background w;
     ticks := ticks w; drawn := drawn w; trace := trace w ++ [e] |}.

(** Reading the tables. *)
Definition rows : M (list db.Order) := λ w, (Returned (orders w), w).
Definition offer_rows : M (list offerDb.Offer) := λ w, (Returned (offers w), w).

(** [await order.save()] *)
Definition await_save (o : db.Order) : M unit :=
  λ w, (Returned (), emit (Saved o) (set_orders (db.save o (orders w)) w)).

(** [order.save()] whose promise is not awaited: the write is in flight. *)
Definition start_save (o : db.Order) : M unit :=
  λ w, (Returned (),
        emit (SaveStarted o) (set_background (background w ++ [o]) w)).

(** [await order.remove()] *)
Definition await_remove (o : db.Order) : M unit :=
  λ w, (Returned (),
        emit (Removed (db.id o)) (set_orders (db.remove o (orders w)) w)).

(** The store completes the writes in flight. *)
Definition settle (w : World) : World :=
  set_background [] (set_orders (foldl (λ t o, db.save o t) (orders w)
                                       (background w)) w).

(** ** public/services/orders.ts *)

Module OpenOrder.
Record t := { id : string; expiration_date : Z }.
End OpenOrder.

(** The API projection of an order ([Order], [MarketplaceOrder],
    [ExternalOrder] of the service; the optional fields are those only one of
    the two shapes carries). *)
Module Order.
Record t := {
  id : string;
  offer_id : string;
  error : option db.OrderError;
  content : option string;
  status : db.OpenOrderStatus;
  completion_date : Z;
  title : string;
  description : string;
  amount : Z;
  blockchain_data : option offerDb.BlockchainData;
  call_to_action : option string;
  offer_type : option offerDb.OfferType;
}.
End Order.

Record Cursors := { cursor_after : string; cursor_before : string }.
Record Paging := { cursors : Cursors; previous : string; next : string }.
Record OrderList := { list_orders : list Order.t; paging : Paging }.

Module orders.

(** Where a call of [createMarketplaceOrder] is suspended: the [await] it
    waits at, with the locals it has bound so far. *)
Inductive Creation :=
| AwaitOffer (offerId userId : string)
  (* await offerDb.Offer.findOne(offerId) *)
| AwaitOpened (offer : offerDb.Offer) (offerId userId : string)
  (* await db.MarketplaceOrder.findOne({ where: { userId, offerId, status } }) *)
| AwaitTotal (offer : offerDb.Offer) (offerId userId : string)
  (* await db.MarketplaceOrder.count({ where: { offerId } }) *)
| AwaitForUser (offer : offerDb.Offer) (offerId userId : string)
  (* await db.MarketplaceOrder.count({ where: { userId, offerId } }) *)
| AwaitSave (order : db.Order)
  (* await order.save() *)
| Settled (result : Outcome OpenOrder.t).

Section services.

Variable env : Env.

(** [new Date()] *)
Definition new_Date : M Z :=
  λ w, (Returned (clock env (ticks w)), set_ticks (S (ticks w)) w).

(** [order.setStatus(status)] on the in-memory object. *)
Definition setStatus (s : db.OpenOrderStatus) (order : db.Order)
    : M db.Order :=
  now ← new_Date; mret (db.setStatus s now order).

(** Modelled from the spec: [MarketplaceOrder.new] / [ExternalOrder.new]
    go through [CreationDateModel.new] (models/index.ts, not among the
    sources): the initializers draw the [id] and stamp [createdDate], and
    [Order.new] stamps the [origin] of the class. *)
Definition new (cls : db.OrderOrigin) (user offer : string) (amount : Z)
    (type : offerDb.OfferType) (status : db.OpenOrderStatus)
    (meta : offerDb.OrderMeta) : M db.Order :=
  λ w, (Returned {| db.id := generateId env (drawn w);
                    db.origin := cls;
                    db.type := type;
                    db.blockchainData := None;
                    db.userId := user;
                    db.offerId := offer;
                    db.meta := meta;
                    db.error := None;
                    db.amount := amount;
                    db.status := status;
                    db.createdDate := clock env (ticks w);
                    db.currentStatusDate := None;
                    db.value := None |},
        set_drawn (S (drawn w)) (set_ticks (S (ticks w)) w)).

(** [payment.payTo(...)] *)
Definition payment_payTo (walletAddress appId : string) (amount : Z)
    (orderId : string) : M unit :=
  λ w, let w' := emit (Paid walletAddress appId amount orderId) w in
       if payTo env walletAddress appId amount orderId
       then (Returned (), w') else (Thrown PaymentError, w').

(** [metrics.submitOrder(type, offerId)] *)
Definition metrics_submitOrder (t : offerDb.OfferType) (offerId : string) : M unit :=
  λ w, (Returned (), emit (SubmitMetric t offerId) w).

Definition orderDbToApi (order : db.Order) : M Order.t :=
  if decide (db.status order = db.opened) then throw OpenedNotReturned
  else
    let completion_date :=
      default (db.createdDate order) (db.currentStatusDate order) in
    let meta := db.meta order in
    mret
      (if db.isMarketplaceOrder order then
         {| Order.id := db.id order;
            Order.offer_id := db.offerId order;
            Order.status := db.status order;
            Order.error := db.error order;
            Order.completion_date := completion_date;
            Order.title := offerDb.title meta;
            Order.description := offerDb.description meta;
            Order.amount := db.amount order;
            Order.offer_type := Some (db.type order);
            Order.content := offerDb.content meta;
            Order.blockchain_data := db.blockchainData order;
            Order.call_to_action := offerDb.call_to_action meta |}
       else
         {| Order.id := db.id order;
            Order.offer_id := db.offerId order;
            Order.status := db.status order;
            Order.error := db.error order;
            Order.completion_date := completion_date;
            Order.title := offerDb.title meta;
            Order.description := offerDb.description meta;
            Order.amount := db.amount order;
            Order.offer_type := None;
            Order.content := None;
            Order.blockchain_data :=
              Some {| offerDb.transaction_id := None;
                      offerDb.sender_address := None;
                      offerDb.recipient_address :=
                        offerDb.wallet_address meta |};
            Order.call_to_action := None |}).

(** [order.expirationDate! < now]; a null deadline compares as 0. *)
Definition deadline_before (deadline : option db.Date) (now : Z) : bool :=
  match deadline with
  | Some d => db.date_lt d (db.date now)
  | None => 0 <? now
  end.

(** [now > order.expirationDate!] *)
Definition after_deadline (now : Z) (deadline : option db.Date) : bool :=
  match deadline with
  | Some d => db.date_gt (db.date now) d
  | None => now >? 0
  end.

(** [checkIfTimedOut(order)]: the caller does not wait for the returned
    promise; the in-memory order it passed is the one that was flipped. *)
Definition checkIfTimedOut (order : db.Order) : M db.Order :=
  if decide (db.status order = db.pending) then
    now ← new_Date;
    if deadline_before (db.expirationDate order) now then
      order ← setStatus db.failed order;
      start_save order;;
      mret order
    else mret order
  else mret order.

Definition getOrder (orderId : string) : M Order.t :=
  table ← rows;
  match db.getOne None table orderId (Some (db.IsNot db.opened)) with
  | None => throw (NoSuchOrderOrOpen orderId)
  | Some order =>
      order ← checkIfTimedOut order;
      orderDbToApi order
  end.

(** [order.expirationDate!.toISOString()] *)
Definition toOpenOrder (order : db.Order) : M OpenOrder.t :=
  match db.expirationDate order with
  | Some (db.date d) =>
      mret {| OpenOrder.id := db.id order; OpenOrder.expiration_date := d |}
  | _ => throw NoExpirationDate
  end.

(** The closure [create] of [createMarketplaceOrder]. *)
Definition create (offer : offerDb.Offer) (offerId userId : string)
    : M (option db.Order) :=
  table ← rows;
  let total := db.count_offer table offerId in
  if decide (total = offerDb.total (offerDb.cap offer)) then mret None
  else
    table ← rows;
    let forUser := db.count_user_offer table userId offerId in
    if decide (forUser = offerDb.per_user (offerDb.cap offer)) then mret None
    else
      order ← new db.marketplace userId offerId (offerDb.amount offer)
                (offerDb.type offer) db.opened (offerDb.order_meta offer);
      await_save order;;
      mret (Some order).

Definition createMarketplaceOrder (offerId userId : string)
    : M OpenOrder.t :=
  catalogue ← offer_rows;
  match offerDb.findOne catalogue offerId with
  | None => throw (OfferNotFound offerId)
  | Some offer =>
      table ← rows;
      order ← match db.findOne_opened table userId offerId with
              | Some order => mret (Some order)
              | None => create offer offerId userId
              end;
      match order with
      | None => throw (OfferCapReached offerId)
      | Some order => toOpenOrder order
      end
  end.

(** The same function, run from one [await] to the next: the awaited
    query is answered from the store as it is when the call resumes, and
    the call runs on to its next [await] (or to its end).  The event loop
    may resume other calls in between ([// order = await lock(...)] is
    commented out in the source). *)
Definition settle_with (order : db.Order) (w : World) : Creation * World :=
  let '(result, w) := toOpenOrder order w in (Settled result, w).

Definition resume (c : Creation) (w : World) : Creation * World :=
  match c with
  | AwaitOffer offerId userId =>
      match offerDb.findOne (offers w) offerId with
      | None => (Settled (Thrown (OfferNotFound offerId)), w)
      | Some offer => (AwaitOpened offer offerId userId, w)
      end
  | AwaitOpened offer offerId userId =>
      match db.findOne_opened (orders w) userId offerId with
      | Some order => settle_with order w
      | None => (AwaitTotal offer offerId userId, w)
      end
  | AwaitTotal offer offerId userId =>
      let total := db.count_offer (orders w) offerId in
      if decide (total = offerDb.total (offerDb.cap offer))
      then (Settled (Thrown (OfferCapReached offerId)), w)
      else (AwaitForUser offer offerId userId, w)
  | AwaitForUser offer offerId userId =>
      let forUser := db.count_user_offer (orders w) userId offerId in
      if decide (forUser = offerDb.per_user (offerDb.cap offer))
      then (Settled (Thrown (OfferCapReached offerId)), w)
      else
        match new db.marketplace userId offerId (offerDb.amount offer)
                (offerDb.type offer) db.opened (offerDb.order_meta offer) w
        with
        | (Returned order, w) => (AwaitSave order, w)
        | (Thrown e, w) => (Settled (Thrown e), w)
        end
  | AwaitSave order =>
      match await_save order w with
      | (Returned _, w) => settle_with order w
      | (Thrown e, w) => (Settled (Thrown e), w)
      end
  | Settled result => (Settled result, w)
  end.

(** The event loop: [schedule] names, turn by turn, the call to resume. *)
Fixpoint interleave (schedule : list nat) (calls : list Creation)
    (w : World) : list Creation * World :=
  match schedule with
  | [] => (calls, w)
  | i :: schedule =>
      match calls !! i with
      | Some c =>
          let '(c, w) := resume c w in
          interleave schedule (<[i := c]> calls) w
      | None => interleave schedule calls w
      end
  end.

(** A call that nothing interrupts. *)
Fixpoint uninterrupted (turns : nat) (c : Creation) (w : World)
    : Creation * World :=
  match turns with
  | O => (c, w)
  | S turns => let '(c, w) := resume c w in uninterrupted turns c w
  end.

Definition createExternalOrder (jwt userId : string) : M OpenOrder.t :=
  match validateSpendJWT env jwt with
  | None => throw InvalidJWT
  | Some offer =>
      table ← rows;
      order ← match db.findOne_opened table userId (jwt_offer_id offer) with
              | Some order => mret order
              | None =>
                  order ← new db.external userId (jwt_offer_id offer)
                            (jwt_amount offer) offerDb.spend db.opened
                            {| offerDb.title := jwt_title offer;
                               offerDb.description := jwt_description offer;
                               offerDb.call_to_action := None;
                               offerDb.content := None;
                               offerDb.wallet_address :=
                                 Some (jwt_wallet_address offer) |};
                  await_save order;;
                  mret order
              end;
      toOpenOrder order
  end.

Definition submitOrder (orderId : string) (form : option string)
    (walletAddress appId : string) : M Order.t :=
  table ← rows;
  match db.findOne_by_id table orderId with
  | None => throw (NoSuchOrder orderId)
  | Some order =>
      if decide (db.status order ≠ db.opened) then orderDbToApi order
      else
        now ← new_Date;
        if after_deadline now (db.expirationDate order)
        then throw (OpenOrderExpired orderId)
        else
          catalogue ← offer_rows;
          match offerDb.findOne catalogue (db.offerId order) with
          | None => throw (NoSuchOffer (db.offerId order))
          | Some offer =>
              (match offerDb.type offer with
               | offerDb.earn =>
                   if isValid env (offerDb.id offer) form then mret ()
                   else throw (InvalidForm (db.id order))
               | offerDb.spend => mret ()
               end);;
              order ← setStatus db.pending order;
              await_save order;;
              (match offerDb.type offer with
               | offerDb.earn =>
                   payment_payTo walletAddress appId (offerDb.amount offer)
                     (db.id order)
               | offerDb.spend => mret ()
               end);;
              metrics_submitOrder (offerDb.type offer) (offerDb.id offer);;
              orderDbToApi order
          end
  end.

Definition cancelOrder (orderId : string) : M unit :=
  table ← rows;
  match db.getOne None table orderId (Some (db.Is db.opened)) with
  | None => throw (NoSuchOpenOrder orderId)
  | Some order => await_remove order
  end.

Definition placeholder_paging : Paging :=
  {| cursors := {| cursor_after := "MTAxNTExOTQ1MjAwNzI5NDE";
                   cursor_before := "NDMyNzQyODI3OTQw" |};
     previous := "https://api.kinmarketplace.com/v1/orders?limit=25&before=NDMyNzQyODI3OTQw";
     next := "https://api.kinmarketplace.com/v1/orders?limit=25&after=MTAxNTExOTQ1MjAwNzI5NDE=" |}.

(** [orders.map(order => { checkIfTimedOut(order); return orderDbToApi(order); })] *)
Fixpoint project_all (l : list db.Order) : M (list Order.t) :=
  match l with
  | [] => mret []
  | order :: rest =>
      order ← checkIfTimedOut order;
      api ← orderDbToApi order;
      apis ← project_all rest;
      mret (api :: apis)
  end.

(** [limit = None]: the argument is omitted and defaults to 25. *)
Definition getOrderHistory (userId : string) (limit : option nat)
    (before after : option string) : M OrderList :=
  let limit := default 25%nat limit in
  (* XXX use the cursor input values *)
  table ← rows;
  let found := db.getAll None (nulls_first env) table userId
                 (Some (db.IsNot db.opened)) (Some limit) in
  apis ← project_all found;
  mret {| list_orders := apis; paging := placeholder_paging |}.

End services.
End orders.

(** ** utils/RateLimit.ts *)

(** The Redis keyspace: the integer a key holds (the decimal string that
    INCRBY maintains, kept as the integer it denotes) and the time to live,
    in seconds, last set on it. *)
Record Redis := {
  store : gmap string Z;
  ttls : gmap string Q;
}.

Module redis.

(** [INCRBY key step]: a missing key counts from 0. *)
Definition incrby (key : string) (step : Z) (r : Redis) : Redis :=
  {| store := <[key := default 0 (store r !! key) + step]> (store r);
     ttls := ttls r |}.

(** [EXPIRE key seconds]: only an existing key gets a time to live. *)
Definition expire (key : string) (seconds : Q) (r : Redis) : Redis :=
  match store r !! key with
  | Some _ => {| store := store r; ttls := <[key := seconds]> (ttls r) |}
  | None => r
  end.

(** [MGET key ...]: one reply per key, [None] for a missing key. *)
Definition mget (keys : list string) (r : Redis) : list (option Z) :=
  map (λ key, store r !! key) keys.

End redis.

Module RateLimit.
Section RateLimit.
Local Open Scope Q_scope.

(** JavaScript's conversion of a number to a string, given a number in
    lowest terms. *)
Variable toString : Q → string.

(** Numbers are exact rationals; this agrees with the doubles of the
    source whenever the bucket size is a whole number of seconds. *)
Definition show (x : Q) : string := toString (Qred x).

Record t := {
  bucketPrefix : string;
  rateLimitValue : Q;
  windowSize : Q;
  ttl : Q;
}.

(** [setWindowSizeAndTTL(duration)], on the duration in seconds. *)
Definition setWindowSizeAndTTL (asSeconds : Q) (rl : t) : t :=
  {| bucketPrefix := bucketPrefix rl;
     rateLimitValue := rateLimitValue rl;
     windowSize := asSeconds;
     ttl := asSeconds * 10 |}.

(** [new RateLimit(bucketPrefix, rateLimitValue, windowSizeMomentObject)] *)
Definition constructor (bucketPrefix : string) (rateLimitValue : Q)
    (asSeconds : Q) : t :=
  setWindowSizeAndTTL asSeconds
    {| bucketPrefix := bucketPrefix; rateLimitValue := rateLimitValue;
       windowSize := 0; ttl := 0 |}.

Definition bucketSize (rl : t) : Q := Qmax (windowSize rl / 60) 1.

(** [Math.floor((Date.now() / 1000) / bucketSize) * bucketSize] *)
Definition currentTimestampSeconds (rl : t) (now : Z) : Q :=
  inject_Z (Qfloor ((inject_Z now / 1000) / bucketSize rl)) * bucketSize rl.

(** [for (let i = 0; i < this.windowSize; i += bucketSize) windowKeys.push(...)];
    [fuel] bounds the number of times the body runs. *)
Fixpoint windowLoop (rl : t) (current : Q) (fuel : nat) (i : Q)
    (windowKeys : list string) : option (list string) :=
  if Qlt_le_dec i (windowSize rl) then
    match fuel with
    | O => None
    | S fuel =>
        windowLoop rl current fuel (i + bucketSize rl)
          (windowKeys ++ [bucketPrefix rl +:+ show (current - i)])
    end
  else Some windowKeys.

(** The body runs fewer than [windowSize] + 1 times, the bucket size being
    at least one second. *)
Definition enough (rl : t) : nat := Z.to_nat (Qceiling (windowSize rl)).

(** [check(step)] at [Date.now() = now]: the verdict and the keyspace it
    leaves ([None]: the loop did not finish within [enough]). *)
Definition check (rl : t) (step : Z) (now : Z) (r : Redis)
    : option (bool * Redis) :=
  let current := currentTimestampSeconds rl now in
  let currentBucketName := bucketPrefix rl +:+ show current in
  let r := redis.incrby currentBucketName step r in
  let r := redis.expire currentBucketName (ttl rl) r in
  match windowLoop rl current (enough rl) 0 [show current] with
  | None => None
  | Some windowKeys =>
      let rateSum :=
        foldl (λ sum val, (sum + val)%Z) 0%Z
              (omap id (redis.mget windowKeys r)) in
      (* rateSum >= this.rateLimitValue *)
      Some (Qle_bool (rateLimitValue rl) (inject_Z rateSum), r)
  end.

Definition checkRate (rl : t) := check rl 1%Z.
Definition checkAmount (rl : t) (amount : Z) := check rl amount.

(** [throwOnRateLimit], [checkAppEarnLimit] and [checkUserEarnLimit]: the
    verdict [true] is the one they throw on ([TooManyRegistrations],
    [TooMuchEarnOrdered]). *)
Definition throwOnRateLimit (appId type : string) (limit duration : Q) :=
  checkRate
    (constructor ("rate_limit" +:+ ":" +:+ appId +:+ ":" +:+ type +:+ ":")
       limit duration).

Definition checkAppEarnLimit (appId type : string) (limit duration : Q)
    (amount : Z) :=
  checkAmount
    (constructor ("amount_limit" +:+ ":" +:+ appId +:+ ":" +:+ type +:+ ":")
       limit duration) amount.

Definition checkUserEarnLimit (userId type : string) (limit duration : Q)
    (amount : Z) :=
  checkAmount
    (constructor ("amount_limit" +:+ ":" +:+ userId +:+ ":" +:+ type +:+ ":")
       limit duration) amount.

(** *** The sliding window, for the statements *)

(** The key of the bucket that starts at [timestamp]. *)
Definition bucketName (rl : t) (timestamp : Q) : string :=
  bucketPrefix rl +:+ show timestamp.

(** The number of buckets that start less than [windowSize] before the
    current one, itself included. *)
Definition slots (rl : t) : nat :=
  Z.to_nat (Qceiling (windowSize rl / bucketSize rl)).




End RateLimit.
End RateLimit.

(** * Observations and examples *)

(** ** Running a service *)

(** Queries are reasoned about through their lemmas, not by unfolding. *)
Arguments db.getAll : simpl never.
Arguments db.getOne : simpl never.
Arguments db.findOne_by_id : simpl never.
Arguments db.findOne_opened : simpl never.
Arguments db.count_offer : simpl never.
Arguments db.count_user_offer : simpl never.
Arguments offerDb.findOne : simpl never.

Ltac run_step :=
  unfold mbind, M_bind, bind, mret, M_ret, ret, throw, rows, offer_rows,
    orders.new_Date, orders.setStatus, orders.metrics_submitOrder, await_save,
    await_remove, start_save in *; simpl in *.

Ltac run := repeat (progress run_step).

(** What a service leaves untouched when it only reads the clock. *)
Definition same_store (w w' : World) : Prop :=
  orders w' = orders w ∧ background w' = background w ∧ trace w' = trace w.

(** The awaited saves that put order [orderId] in status [pending]. *)
Definition to_pending (orderId : string) (e : Event) : Prop :=
  match e with
  | Saved o => db.id o = orderId ∧ db.status o = db.pending
  | _ => False
  end.

#[global] Instance to_pending_dec orderId e : Decision (to_pending orderId e).
Proof. destruct e; simpl; apply _. Defined.

Definition transitions_to_pending (orderId : string) (w : World) : nat :=
  length (filter (to_pending orderId) (trace w)).

(** The payments requested so far. *)
Definition is_payment (e : Event) : Prop :=
  match e with Paid _ _ _ _ => True | _ => False end.

#[global] Instance is_payment_dec e : Decision (is_payment e).
Proof. destruct e; simpl; apply _. Defined.

Definition payments (w : World) : list Event := filter is_payment (trace w).

(** The clock never goes back. *)
Definition monotone_clock (env : Env) : Prop :=
  ∀ n m, (n ≤ m)%nat → clock env n ≤ clock env m.

(** The 45 seconds after [d] are over at every clock read from the
    [since]-th on. *)
Definition deadline_passed (env : Env) (since : nat) (d : Z) : Prop :=
  ∀ n, (since ≤ n)%nat → d + 45 * 1000 < clock env n.

(** What a read returns for the row it was given: the same order, never
    opened; as stored unless it was pending, and failed if it was pending
    past its deadline. *)
Definition reconciled (late : Z → Prop) (row : db.Order) (p : Order.t)
    : Prop :=
  Order.id p = db.id row
  ∧ Order.status p ≠ db.opened
  ∧ (db.status row ≠ db.pending →
       Order.status p = db.status row
       ∧ Order.completion_date p
         = default (db.createdDate row) (db.currentStatusDate row))
  ∧ (db.status row = db.pending →
       ∀ d, db.currentStatusDate row = Some d → late d →
            Order.status p = db.failed).

(** The date an order is listed under: the status date, the creation date
    in its absence. *)
Definition coalesced_date (o : db.Order) : Z :=
  default (db.createdDate o) (db.currentStatusDate o).

(** Coalesced date descending, id descending as tie-break. *)
Definition newest_first (x y : db.Order) : Prop :=
  coalesced_date y < coalesced_date x
  ∨ (coalesced_date x = coalesced_date y
     ∧ String.compare (db.id y) (db.id x) ≠ Gt).

(** The opened marketplace orders of a user for an offer. *)
Definition open_marketplace_orders (rows : list db.Order)
    (user offer : string) : list db.Order :=
  filter (λ o, db.origin o = db.marketplace ∧ db.status o = db.opened
               ∧ db.userId o = user ∧ db.offerId o = offer) rows.

(** At most one opened marketplace order per (userId, offerId); no opened
    order among the writes in flight (they are timeout flips). *)
Definition one_open_order (w : World) : Prop :=
  (∀ user offer,
     (length (open_marketplace_orders (orders w) user offer) ≤ 1)%nat)
  ∧ Forall (λ o, db.status o ≠ db.opened) (background w).

(** How one request may change the store: it leaves the offers alone,
    starts only saves of orders that are not opened, and either leaves the
    table alone, saves an order that is not an opened marketplace order,
    saves an order for a pair that has no opened order, or removes an
    order. *)
Definition one_write (w w' : World) : Prop :=
  offers w' = offers w
  ∧ (∃ flips, background w' = background w ++ flips
              ∧ Forall (λ o, db.status o ≠ db.opened) flips)
  ∧ (orders w' = orders w
     ∨ (∃ o, orders w' = db.save o (orders w)
             ∧ ¬ (db.origin o = db.marketplace ∧ db.status o = db.opened))
     ∨ (∃ o, orders w' = db.save o (orders w)
             ∧ db.findOne_opened (orders w) (db.userId o) (db.offerId o)
               = None)
     ∨ (∃ o, orders w' = db.remove o (orders w))).

(** Lemmas on what the services write. *)
Create HintDb writes.

(** No offer has more orders than its [cap.total]. *)
Definition within_cap (w : World) : Prop :=
  ∀ offerId offer,
    offerDb.findOne (offers w) offerId = Some offer →
    db.count_offer (orders w) offerId ≤ offerDb.total (offerDb.cap offer).

(** The requests of the order API, served one at a time, and the store
    completing the writes in flight. *)
Inductive Request :=
| GetOrder (orderId : string)
| CreateMarketplaceOrder (offerId userId : string)
| CreateExternalOrder (jwt userId : string)
| SubmitOrder (orderId : string) (form : option string)
    (walletAddress appId : string)
| CancelOrder (orderId : string)
| GetOrderHistory (userId : string) (limit : option nat)
    (before after : option string)
| WritesComplete.

Definition serve (env : Env) (r : Request) (w : World) : World :=
  match r with
  | GetOrder orderId => snd (orders.getOrder env orderId w)
  | CreateMarketplaceOrder offerId userId =>
      snd (orders.createMarketplaceOrder env offerId userId w)
  | CreateExternalOrder jwt userId =>
      snd (orders.createExternalOrder env jwt userId w)
  | SubmitOrder orderId form walletAddress appId =>
      snd (orders.submitOrder env orderId form walletAddress appId w)
  | CancelOrder orderId => snd (orders.cancelOrder orderId w)
  | GetOrderHistory userId limit before after =>
      snd (orders.getOrderHistory env userId limit before after w)
  | WritesComplete => settle w
  end.

Definition serve_all (env : Env) (requests : list Request) (w : World)
    : World :=
  foldl (λ w r, serve env r w) w requests.

(** ** A small shop, for the examples *)

Module example.

Definition env : Env :=
  {| clock := λ n, 1000000 + Z.of_nat n;
     generateId := λ n, match n with
                        | 0%nat => "T0" | 1%nat => "T1" | 2%nat => "T2"
                        | _ => "T3"
                        end;
     validateSpendJWT := λ jwt,
       if decide (jwt = "spend.jwt") then
         Some {| jwt_offer_id := "X1"; jwt_amount := 7;
                 jwt_title := "gift card"; jwt_description := "a card";
                 jwt_wallet_address := "GAPP" |}
       else None;
     isValid := λ _ _, true;
     payTo := λ _ _ _ _, true;
     nulls_first := true |}.

(** The same collaborators over a database that lists NULLs last. *)
Definition env_nulls_last : Env :=
  {| clock := clock env; generateId := generateId env;
     validateSpendJWT := validateSpendJWT env; isValid := isValid env;
     payTo := payTo env; nulls_first := false |}.

Definition meta : offerDb.OrderMeta :=
  {| offerDb.title := "poll"; offerDb.description := "answer a poll";
     offerDb.call_to_action := None; offerDb.content := None;
     offerDb.wallet_address := None |}.

(** An earn offer with [cap.total = 1] and [cap.per_user = 1]. *)
Definition offer : offerDb.Offer :=
  {| offerDb.id := "O1"; offerDb.amount := 10; offerDb.type := offerDb.earn;
     offerDb.cap := {| offerDb.total := 1; offerDb.per_user := 1 |};
     offerDb.order_meta := meta |}.

Definition order (i user : string) (s : db.OpenOrderStatus) (created : Z)
    (statusDate : option Z) : db.Order :=
  {| db.id := i; db.origin := db.marketplace; db.type := offerDb.earn;
     db.blockchainData := None; db.userId := user; db.offerId := "O1";
     db.meta := meta; db.error := None; db.amount := 10; db.status := s;
     db.createdDate := created; db.currentStatusDate := statusDate;
     db.value := None |}.

Definition world (rows : list db.Order) : World :=
  {| orders := rows; offers := [offer]; background := []; ticks := 0;
     drawn := 0; trace := [] |}.

(** Numbers print in decimal (whole numbers; a fraction prints as
    numerator/denominator). *)
Definition toString (q : Q) : string :=
  pretty (Qnum q)
  +:+ (if decide (Qden q = 1%positive) then EmptyString
       else "/" +:+ pretty (Z.pos (Qden q))).


End example.


(** * The helpers of [utils/utils.ts] *)

Module GenerateRandomStringOptions.

(** [{ prefix?, minLength?, baseLength?, length? }]: a missing field is
    [None]; the lengths are whole numbers. *)
Record t := {
  prefix : option string;
  minLength : option Z;
  baseLength : option Z;
  length : option Z;
}.

End GenerateRandomStringOptions.

(** [{ version, appId, orderId }], a field being [None] where the source
    reads a part that the memo does not have. *)
Record Memo := {
  version : option string;
  appId : option string;
  orderId : option string;
}.

Module utils.

(** A call that returns or throws [Error(message)]. *)
Inductive Try (A : Type) : Type :=
| Done (a : A)
| Raised (message : string).
Arguments Done {A} a.
Arguments Raised {A} message.

(** [value || fallback] on a number that may be missing: 0 is falsy. *)
Definition number_or (value : option Z) (fallback : Z) : Z :=
  match value with
  | Some n => if decide (n = 0) then fallback else n
  | None => fallback
  end.

(** [value || fallback] on a string that may be missing: the empty string
    is falsy. *)
Definition string_or (value : option string) (fallback : string) : string :=
  match value with
  | Some EmptyString | None => fallback
  | Some s => s
  end.


Definition ID_LENGTH : Z := 20.
Definition ID_CHARS : string :=
  "1234567890abcdefghijklmnopqrstuvwxyzABCDEFGHIJKLMNOPQRSTUVWXYZ".

(** [str + ID_CHARS[Math.trunc(int / 256 * ID_CHARS.length)]]: for a byte
    the division by 256 and the product are exact in doubles, so the index
    is the integer quotient; indexing past the end of a string gives
    [undefined]. *)
Definition appendIdChar (str : string) (int : Byte.byte) : string :=
  let index :=
    Z.of_N (Byte.to_N int) * Z.of_nat (String.length ID_CHARS) / 256 in
  match String.get (Z.to_nat index) ID_CHARS with
  | Some c => str +:+ String c EmptyString
  | None => str +:+ "undefined"
  end.

Section random.

(** [Math.floor(Math.random() * MAXIMUM_RANDOM_LENGTH)], and the bytes
    that [crypto.randomFillSync] writes, by position in the buffer. *)
Variable randomLength : Z.
Variable randomFillSync : nat → Byte.byte.

Definition generateRandomString (options : GenerateRandomStringOptions.t)
    : Try string :=
  let prefix := string_or (GenerateRandomStringOptions.prefix options)
                  EmptyString in
  let length :=
    number_or (GenerateRandomStringOptions.baseLength options) randomLength in
  let length :=
    match GenerateRandomStringOptions.length options with
    | Some l => if decide (l = 0) then length
                else l - Z.of_nat (String.length prefix)
    | None => length
    end in
  let length :=
    Z.max length
      (number_or (GenerateRandomStringOptions.minLength options) 0) in
  if decide (length ≤ 0) then
    Raised "Requested Length can't be equal or less than prefix length or 0"
  else
    let randomInts := randomFillSync <$> seq 0 (Z.to_nat length) in
    Done (prefix +:+ foldl appendIdChar EmptyString randomInts).

Definition generateId (prefix : string) : Try string :=
  generateRandomString
    {| GenerateRandomStringOptions.prefix := Some prefix;
       GenerateRandomStringOptions.minLength := None;
       GenerateRandomStringOptions.baseLength := Some ID_LENGTH;
       GenerateRandomStringOptions.length := None |}.

End random.

(** [Array.from(new Set(arr))]: a set keeps its elements in the order of
    their first insertion. *)
Fixpoint removeDuplicates_into {A} `{EqDecision A} (set arr : list A)
    : list A :=
  match arr with
  | [] => set
  | x :: arr =>
      removeDuplicates_into (if decide (x ∈ set) then set else set ++ [x]) arr
  end.

Definition removeDuplicates {A} `{EqDecision A} (arr : list A) : list A :=
  removeDuplicates_into [] arr.

(** [retry(fn, predicate, errorMessage)], [fn i] being what the call
    number [i] of [fn] resolves to: the outcome and the number of calls
    made.  [remaining] counts the rounds of the loop that are left. *)
Fixpoint retry_from {A} (fn : nat → A) (predicate : A → bool)
    (errorMessage : option string) (remaining i : nat) : Try A * nat :=
  match remaining with
  | O => (Raised (string_or errorMessage "failed"), i)
  | S remaining =>
      let obj := fn i in
      if predicate obj then (Done obj, S i)
      else retry_from fn predicate errorMessage remaining (S i)
  end.

Definition retry {A} (fn : nat → A) (predicate : A → bool)
    (errorMessage : option string) : Try A * nat :=
  retry_from fn predicate errorMessage 30 0.

(** [list.slice(start, end)] for [start <= end]. *)
Definition slice {A} (list : list A) (start end_ : nat)
    : Datatypes.list A :=
  take (end_ - start) (drop start list).

(** [batch(list, chunkSize, delay, chunkCb)] for a whole [chunkSize]: the
    calls of [chunkCb], in order, as pairs of a chunk and the index of
    its first element, when every call resolves.  [None]: [runner] is
    still rescheduling itself after [fuel] calls. *)
Fixpoint runner {A} (list : list A) (chunkSize : nat) (fuel index : nat)
    : option (Datatypes.list (Datatypes.list A * nat)%type) :=
  match fuel with
  | O => None
  | S fuel =>
      let end_ := (index + chunkSize)%nat in
      (* end > list.length - 1 *)
      if decide (Z.of_nat end_ > Z.of_nat (List.length list) - 1) then
        Some [(drop index list, index)]
      else
        calls ← runner list chunkSize fuel end_;
        Some ((slice list index end_, index) :: calls)
  end.

Definition batch {A} (list : list A) (chunkSize : nat) (fuel : nat)
    : option (Datatypes.list (Datatypes.list A * nat)%type) :=
  runner list chunkSize fuel 0.

(** [memo.split(separator)] for a separator of one character. *)
Fixpoint split (separator : ascii) (s : string) : list string :=
  match s with
  | EmptyString => [EmptyString]
  | String c s =>
      if decide (c = separator) then EmptyString :: split separator s
      else match split separator s with
           | part :: parts => String c part :: parts
           | [] => [String c EmptyString]
           end
  end.

Definition parseMemo (memo : string) : Memo :=
  let parts := split "-"%char memo in
  {| version := parts !! 0%nat;
     appId := parts !! 1%nat;
     orderId := parts !! 2%nat |}.

End utils.

(** * Runs of checks and further scenarios *)


(** No user has more orders for an offer than its [cap.per_user]. *)
Definition within_user_cap (w : World) : Prop :=
  ∀ offerId offer userId,
    offerDb.findOne (offers w) offerId = Some offer →
    db.count_user_offer (orders w) userId offerId
    ≤ offerDb.per_user (offerDb.cap offer).

(** Marketplace orders asked for one after the other, as pairs of an offer
    id and a user id. *)
Definition createInTurn (env : Env) (calls : list (string * string))
    (w : World) : World :=
  foldl (λ w call,
           snd (orders.createMarketplaceOrder env call.1 call.2 w)) w calls.

Module scenario.

(** The collaborators of [example.env] with a form validation that fails. *)
Definition env_invalid_form : Env :=
  {| clock := clock example.env; generateId := generateId example.env;
     validateSpendJWT := validateSpendJWT example.env;
     isValid := λ _ _, false;
     payTo := payTo example.env; nulls_first := true |}.

(** The collaborators of [example.env] with a payment service that fails. *)
Definition env_payment_down : Env :=
  {| clock := clock example.env; generateId := generateId example.env;
     validateSpendJWT := validateSpendJWT example.env;
     isValid := isValid example.env;
     payTo := λ _ _ _ _, false; nulls_first := true |}.

(** An earn offer that three orders in all, two per user, may take. *)
Definition offer : offerDb.Offer :=
  {| offerDb.id := "O1"; offerDb.amount := 10; offerDb.type := offerDb.earn;
     offerDb.cap := {| offerDb.total := 3; offerDb.per_user := 2 |};
     offerDb.order_meta := example.meta |}.

Definition world (rows : list db.Order) : World :=
  {| orders := rows; offers := [offer]; background := []; ticks := 0;
     drawn := 0; trace := [] |}.

(** A world whose offer table is empty. *)
Definition world_without_offers (rows : list db.Order) : World :=
  {| orders := rows; offers := []; background := []; ticks := 0;
     drawn := 0; trace := [] |}.

(** Bytes that go up in steps of 37. *)
Definition randomFillSync (position : nat) : Byte.byte :=
  default Byte.x00 (Byte.of_N (N.of_nat (position * 37 mod 256))).

End scenario.
(** * Properties *)

(** ** The table: primary key and upsert *)

(** [id] is the primary key of the table. *)
Definition primary_key (rows : list db.Order) : Prop :=
  NoDup (db.id <$> rows).

Lemma save_ids_fresh o rows :
  db.id o ∉ (db.id <$> rows) → db.save o rows = rows ++ [o].
Proof.
  induction rows as [|r rows IH]; simpl; [done|].
  intros Hnotin. apply not_elem_of_cons in Hnotin as [Hne Hnotin].
  destruct (decide (db.id r = db.id o)) as [Heq|_]; [by rewrite Heq in Hne|].
  by rewrite IH.
Qed.

Lemma save_ids_present o rows :
  db.id o ∈ (db.id <$> rows) → db.id <$> db.save o rows = db.id <$> rows.
Proof.
  induction rows as [|r rows IH]; simpl; [by intros ?%elem_of_nil|].
  intros Hin. destruct (decide (db.id r = db.id o)) as [Heq|Hne]; simpl.
  - by rewrite Heq.
  - f_equal. apply IH. apply elem_of_cons in Hin as [Heq|Hin]; [done|exact Hin].
Qed.

Lemma save_primary_key o rows :
  primary_key rows → primary_key (db.save o rows).
Proof.
  unfold primary_key. intros Hnd.
  destruct (decide (db.id o ∈ (db.id <$> rows))) as [Hin|Hnotin].
  - by rewrite save_ids_present.
  - rewrite save_ids_fresh by done. rewrite fmap_app. simpl.
    apply NoDup_app. split; [done|]. split.
    + intros i Hi ->%list_elem_of_singleton. done.
    + apply NoDup_singleton.
Qed.

Lemma remove_primary_key o rows :
  primary_key rows → primary_key (db.remove o rows).
Proof.
  unfold primary_key, db.remove. intros Hnd.
  induction rows as [|r rows IH]; simpl; [constructor|].
  apply NoDup_cons in Hnd as [Hr Hnd].
  rewrite filter_cons. destruct (decide (db.id r ≠ db.id o)); [|by apply IH].
  simpl. apply NoDup_cons. split; [|by apply IH].
  intros Hin. apply Hr. apply list_elem_of_fmap in Hin as (r' & -> & Hin').
  apply list_elem_of_fmap. exists r'. split; [done|].
  by apply list_elem_of_filter in Hin' as [_ ?].
Qed.

Lemma elem_of_save o rows : o ∈ db.save o rows.
Proof.
  induction rows as [|r rows IH]; simpl; [apply list_elem_of_here|].
  destruct (decide (db.id r = db.id o)).
  - apply list_elem_of_here.
  - by apply list_elem_of_further.
Qed.

Lemma elem_of_save_inv o r rows :
  r ∈ db.save o rows → r = o ∨ (r ∈ rows ∧ db.id r ≠ db.id o) ∨
                       (r ∈ rows ∧ ¬ primary_key rows).
Proof.
  induction rows as [|x rows IH]; simpl.
  - intros ->%list_elem_of_singleton. by left.
  - destruct (decide (db.id x = db.id o)) as [Heq|Hne].
    + intros [->|Hin]%elem_of_cons; [by left|].
      destruct (decide (db.id r = db.id o)) as [Hr|Hr].
      * right; right. split; [by apply list_elem_of_further|].
        unfold primary_key. simpl. intros [Hx _]%NoDup_cons. apply Hx.
        rewrite Heq, <- Hr. apply list_elem_of_fmap. by exists r.
      * right; left. split; [by apply list_elem_of_further|done].
    + intros [->|Hin]%elem_of_cons.
      * right; left. split; [apply list_elem_of_here|done].
      * destruct (IH Hin) as [->|[[Hr Hne']|[Hr Hpk]]].
        -- by left.
        -- right; left. split; [by apply list_elem_of_further|done].
        -- right; right. split; [by apply list_elem_of_further|].
           unfold primary_key in *. simpl. by intros [_ ?]%NoDup_cons.
Qed.

(** With a primary key, a row is found by its id. *)
Lemma head_filter_id (P : db.Order → Prop) `{∀ o, Decision (P o)}
    (rows : list db.Order) (o : db.Order) :
  primary_key rows → o ∈ rows → (∀ r, P r → db.id r = db.id o) → P o →
  head (filter P rows) = Some o.
Proof.
  unfold primary_key. intros Hnd Hin Hid HP.
  induction rows as [|r rows IH]; [by apply elem_of_nil in Hin|].
  simpl in Hnd. apply NoDup_cons in Hnd as [Hr Hnd].
  rewrite filter_cons. apply elem_of_cons in Hin as [<-|Hin].
  - by rewrite decide_True.
  - destruct (decide (P r)) as [HPr|_]; [|by apply IH].
    exfalso. apply Hr. rewrite (Hid r HPr).
    apply list_elem_of_fmap. by exists o.
Qed.

Lemma head_filter_none (P : db.Order → Prop) `{∀ o, Decision (P o)}
    (rows : list db.Order) :
  (∀ r, r ∈ rows → ¬ P r) → head (filter P rows) = None.
Proof.
  intros Hnone. induction rows as [|r rows IH]; [done|].
  rewrite filter_cons. rewrite decide_False.
  - apply IH. intros r' Hr'. apply Hnone. by apply list_elem_of_further.
  - apply Hnone. apply list_elem_of_here.
Qed.

Lemma findOne_by_id_elem rows o :
  primary_key rows → o ∈ rows → db.findOne_by_id rows (db.id o) = Some o.
Proof.
  intros Hpk Hin. unfold db.findOne_by_id.
  by apply (head_filter_id (λ r, db.id r = db.id o)).
Qed.

Lemma findOne_by_id_Some rows i o :
  db.findOne_by_id rows i = Some o → o ∈ rows ∧ db.id o = i.
Proof.
  unfold db.findOne_by_id. intros Hhead.
  apply head_Some_elem_of in Hhead.
  by apply list_elem_of_filter in Hhead as [? ?].
Qed.

Lemma findOne_by_id_save rows o :
  db.findOne_by_id (db.save o rows) (db.id o) = Some o.
Proof.
  unfold db.findOne_by_id.
  induction rows as [|r rows IH]; simpl.
  - rewrite filter_cons. by rewrite decide_True.
  - destruct (decide (db.id r = db.id o)) as [Heq|Hne].
    + rewrite filter_cons. by rewrite decide_True.
    + rewrite filter_cons. by rewrite decide_False.
Qed.

Lemma getOne_elem rows o q :
  primary_key rows → o ∈ rows → db.updateQueryWithStatus q o →
  db.getOne None rows (db.id o) q = Some o.
Proof.
  intros Hpk Hin Hq. unfold db.getOne.
  apply (head_filter_id _ rows o); [done|done|by intros r [? _]|].
  by repeat split.
Qed.

Lemma getOne_other_status rows o q :
  primary_key rows → o ∈ rows → ¬ db.updateQueryWithStatus q o →
  db.getOne None rows (db.id o) q = None.
Proof.
  unfold primary_key. intros Hpk Hin Hq. unfold db.getOne.
  apply head_filter_none. intros r Hr (Hid & Hqr & _).
  assert (r = o) as ->; [|done].
  apply list_elem_of_lookup in Hr as [i Hi]. apply list_elem_of_lookup in Hin as [j Hj].
  assert (i = j) as ->.
  { eapply NoDup_lookup; [exact Hpk| |].
    - rewrite list_lookup_fmap, Hi. simpl. by rewrite Hid.
    - by rewrite list_lookup_fmap, Hj. }
  congruence.
Qed.

Lemma getOne_absent rows i q :
  (∀ r, r ∈ rows → db.id r ≠ i) → db.getOne None rows i q = None.
Proof.
  intros Habs. unfold db.getOne. apply head_filter_none.
  intros r Hr (Hid & _). by apply (Habs r).
Qed.

(** ** Expiration *)

(** C7: the expiration date is fixed by the status and the two timestamps:
    [createdDate] + 10 minutes for an opened order, [currentStatusDate] + 45
    seconds for a pending one, null for a completed or failed one; two
    orders that agree on the three fields have the same expiration date. *)
Theorem expirationDate_by_status (o : db.Order) :
  (db.status o = db.opened →
     db.expirationDate o = Some (db.date (db.createdDate o + 10 * 60 * 1000)))
  ∧ (∀ d, db.status o = db.pending → db.currentStatusDate o = Some d →
     db.expirationDate o = Some (db.date (d + 45 * 1000)))
  ∧ (db.status o = db.completed ∨ db.status o = db.failed →
     db.expirationDate o = None)
  ∧ (∀ o', db.status o' = db.status o →
           db.createdDate o' = db.createdDate o →
           db.currentStatusDate o' = db.currentStatusDate o →
           (db.status o = db.pending → is_Some (db.currentStatusDate o)) →
           db.expirationDate o' = db.expirationDate o).
Proof.
  unfold db.expirationDate, db.moment_add, db.minutes, db.seconds.
  repeat split.
  - by intros ->.
  - by intros d -> ->.
  - by intros [-> | ->].
  - by intros o' -> -> -> _.
Qed.

Lemma expirationDate_by_status_witness :
  db.expirationDate (example.order "T1" "U1" db.opened 1000 None)
    = Some (db.date 601000)
  ∧ db.expirationDate (example.order "T1" "U1" db.pending 1000 (Some 5000))
    = Some (db.date 50000)
  ∧ db.expirationDate (example.order "T1" "U1" db.failed 1000 (Some 5000))
    = None
  ∧ db.expirationDate (example.order "T2" "U2" db.pending 1000 (Some 5000))
    = db.expirationDate (example.order "T1" "U1" db.pending 1000 (Some 5000)).
Proof.
  split; [|split; [|split]].
  - exact (proj1 (expirationDate_by_status
                    (example.order "T1" "U1" db.opened 1000 None)) eq_refl).
  - exact (proj1 (proj2 (expirationDate_by_status
             (example.order "T1" "U1" db.pending 1000 (Some 5000))))
             5000 eq_refl eq_refl).
  - exact (proj1 (proj2 (proj2 (expirationDate_by_status
             (example.order "T1" "U1" db.failed 1000 (Some 5000)))))
             (or_intror eq_refl)).
  - exact (proj2 (proj2 (proj2 (expirationDate_by_status
             (example.order "T1" "U1" db.pending 1000 (Some 5000)))))
             (example.order "T2" "U2" db.pending 1000 (Some 5000))
             eq_refl eq_refl eq_refl (λ _, mk_is_Some _ _ eq_refl)).
Defined.

(** ** Submission *)

Section submission.

Variable env : Env.

Lemma orderDbToApi_returns o w :
  db.status o ≠ db.opened →
  ∃ p, orders.orderDbToApi o w = (Returned p, w)
       ∧ Order.id p = db.id o ∧ Order.status p = db.status o
       ∧ Order.completion_date p
         = default (db.createdDate o) (db.currentStatusDate o).
Proof.
  intros Hs. unfold orders.orderDbToApi. rewrite decide_False by done.
  run. eexists. split; [reflexivity|]. by destruct (db.isMarketplaceOrder o).
Qed.

(** C6: submitting an opened order after its deadline ([createdDate] + 10
    minutes) throws "open order ... has expired"; the table, the writes in
    flight and the trace (hence saves and payments) are as before. *)
Theorem submitOrder_expired (w : World) (o : db.Order)
    (form : option string) (walletAddress appId : string) :
  primary_key (orders w) →
  o ∈ orders w →
  db.status o = db.opened →
  db.createdDate o + 10 * 60 * 1000 < clock env (ticks w) →
  ∃ w', orders.submitOrder env (db.id o) form walletAddress appId w
          = (Thrown (OpenOrderExpired (db.id o)), w')
        ∧ same_store w w'
        ∧ transitions_to_pending (db.id o) w'
          = transitions_to_pending (db.id o) w
        ∧ payments w' = payments w.
Proof.
  intros Hpk Hin Hs Hlate. unfold orders.submitOrder. run.
  rewrite (findOne_by_id_elem _ _ Hpk Hin).
  rewrite decide_False by (intros Hne; by apply Hne).
  unfold db.expirationDate. rewrite Hs. simpl.
  unfold orders.after_deadline, db.date_gt, db.date_lt, db.minutes. simpl.
  replace (db.createdDate o + 10 * 60000 <? clock env (ticks w)) with true
    by (symmetry; apply Z.ltb_lt; lia).
  eexists. split; [reflexivity|]. by repeat split.
Qed.

Lemma orderDbToApi_pure o w r w' :
  orders.orderDbToApi o w = (r, w') →
  w' = w ∧ ∀ w2, orders.orderDbToApi o w2 = (r, w2).
Proof.
  unfold orders.orderDbToApi.
  destruct (decide (db.status o = db.opened)); run; by intros [= <- <-].
Qed.

Lemma transitions_to_pending_emit i e w :
  transitions_to_pending i (emit e w)
  = (transitions_to_pending i w + (if decide (to_pending i e) then 1 else 0))%nat.
Proof.
  unfold transitions_to_pending, emit. simpl.
  rewrite filter_app, length_app, filter_cons, filter_nil.
  by destruct (decide (to_pending i e)).
Qed.

(** C4: submitting an order that is not opened returns its projection and
    leaves the world as it is (no save, no payment, no clock read); so
    after a first accepted submission of an opened order, any further
    submission returns the projection the first one returned, changes
    nothing, and the first one made the only save to [pending]. *)
Theorem submitOrder_resubmission (w : World) (o : db.Order)
    (form : option string) (walletAddress appId : string) :
  primary_key (orders w) →
  o ∈ orders w →
  (db.status o ≠ db.opened →
     ∃ p, orders.orderDbToApi o w = (Returned p, w)
          ∧ orders.submitOrder env (db.id o) form walletAddress appId w
            = (Returned p, w))
  ∧ (db.status o = db.opened →
     ∀ p w1,
       orders.submitOrder env (db.id o) form walletAddress appId w
         = (Returned p, w1) →
       Order.status p = db.pending
       ∧ transitions_to_pending (db.id o) w1
         = S (transitions_to_pending (db.id o) w)
       ∧ ∀ form' walletAddress' appId',
           orders.submitOrder env (db.id o) form' walletAddress' appId' w1
             = (Returned p, w1)).
Proof.
  intros Hpk Hin. split.
  - intros Hs. destruct (orderDbToApi_returns o w Hs) as (p & Hp & _).
    exists p. split; [done|].
    unfold orders.submitOrder. run.
    rewrite (findOne_by_id_elem _ _ Hpk Hin).
    by rewrite decide_True.
  - intros Hs p w1. unfold orders.submitOrder. run.
    rewrite (findOne_by_id_elem _ _ Hpk Hin).
    rewrite decide_False by (intros Hne; by apply Hne).
    destruct (orders.after_deadline _ _); [done|].
    destruct (offerDb.findOne _ _) as [offer|]; [|done].
    set (now := clock env (S (ticks w))).
    set (o' := db.setStatus db.pending now o).
    assert (db.status o' ≠ db.opened) as Hs' by done.
    assert (∀ w2 r w3, orders.orderDbToApi o' w2 = (r, w3) →
              r = Returned p → w3 = w1 →
              Order.status p = db.pending
              ∧ transitions_to_pending (db.id o) w2
                = S (transitions_to_pending (db.id o) w)
              ∧ db.findOne_by_id (orders w2) (db.id o) = Some o' →
              Order.status p = db.pending
              ∧ transitions_to_pending (db.id o) w1
                = S (transitions_to_pending (db.id o) w)
              ∧ ∀ form' walletAddress' appId',
                  orders.submitOrder env (db.id o) form' walletAddress' appId' w1
                  = (Returned p, w1)) as Hgoal.
    { intros w2 r w3 Hp -> ->. apply orderDbToApi_pure in Hp as [-> Hp].
      intros (Hst & Hcount & Hfind). split; [done|]. split; [done|].
      intros form' wa' app'. unfold orders.submitOrder. run.
      rewrite Hfind. rewrite decide_True by done. apply Hp. }
    assert (∀ w2 r w3, orders.orderDbToApi o' w2 = (r, w3) →
              r = Returned p → Order.status p = db.pending) as Hpending.
    { intros w2 r w3 Hp ->.
      destruct (orderDbToApi_returns o' w2 Hs') as (p' & Hp' & _ & Hst & _).
      rewrite Hp' in Hp. by injection Hp as <- _. }
    destruct (offerDb.type offer) eqn:Htype.
    + destruct (isValid env _ _); [|done]. simpl.
      unfold orders.payment_payTo. simpl.
      destruct (payTo env _ _ _ _); [|done].
      match goal with |- orders.orderDbToApi _ ?w2 = _ → _ =>
        intros Hp; eapply (Hgoal w2); [exact Hp|done|done|] end.
      split; [by eapply Hpending|]. split.
      * rewrite !transitions_to_pending_emit. simpl.
        rewrite decide_True by done. unfold transitions_to_pending. simpl. lia.
      * simpl. apply (findOne_by_id_save (orders w) o').
    + simpl.
      match goal with |- orders.orderDbToApi _ ?w2 = _ → _ =>
        intros Hp; eapply (Hgoal w2); [exact Hp|done|done|] end.
      split; [by eapply Hpending|]. split.
      * rewrite !transitions_to_pending_emit. simpl.
        rewrite decide_True by done. unfold transitions_to_pending. simpl. lia.
      * simpl. apply (findOne_by_id_save (orders w) o').
Qed.

End submission.

Lemma submitOrder_expired_witness :
  ∃ w', orders.submitOrder example.env "T1" None "GWALLET" "app"
          (example.world [example.order "T1" "U1" db.opened 0 None])
        = (Thrown (OpenOrderExpired "T1"), w')
      ∧ same_store (example.world [example.order "T1" "U1" db.opened 0 None]) w'
      ∧ transitions_to_pending "T1" w' = 0%nat
      ∧ payments w' = [].
Proof.
  apply (submitOrder_expired example.env
           (example.world [example.order "T1" "U1" db.opened 0 None])
           (example.order "T1" "U1" db.opened 0 None)).
  - apply NoDup_singleton.
  - apply list_elem_of_here.
  - reflexivity.
  - reflexivity.
Defined.

Lemma submitOrder_resubmission_witness :
  (let w := example.world [example.order "T1" "U1" db.pending 0 (Some 5)] in
   ∃ p, Order.status p = db.pending
        ∧ orders.submitOrder example.env "T1" None "GWALLET" "app" w
          = (Returned p, w))
  ∧ (let w := example.world [example.order "T1" "U1" db.opened 999000 None] in
     ∃ p w1,
       orders.submitOrder example.env "T1" None "GWALLET" "app" w
         = (Returned p, w1)
       ∧ Order.status p = db.pending
       ∧ transitions_to_pending "T1" w1 = 1%nat
       ∧ orders.submitOrder example.env "T1" (Some "again") "GOTHER" "app" w1
         = (Returned p, w1)).
Proof.
  split.
  - intros w.
    destruct (submitOrder_resubmission example.env w
                (example.order "T1" "U1" db.pending 0 (Some 5))
                None "GWALLET" "app"
                (NoDup_singleton _) (list_elem_of_here _ _)) as [Hfirst _].
    destruct Hfirst as (p & Hp & Hsubmit); [done|].
    exists p. split; [|exact Hsubmit].
    vm_compute in Hp. by injection Hp as <-.
  - intros w.
    destruct (submitOrder_resubmission example.env w
                (example.order "T1" "U1" db.opened 999000 None)
                None "GWALLET" "app"
                (NoDup_singleton _) (list_elem_of_here _ _)) as [_ Hsecond].
    destruct (orders.submitOrder example.env "T1" None "GWALLET" "app" w)
      as [r w1] eqn:Hfirst.
    vm_compute in Hfirst. injection Hfirst as <- <-.
    eexists _, _. split; [reflexivity|].
    specialize (Hsecond eq_refl _ _ eq_refl) as (Hst & Hcount & Hagain).
    split; [exact Hst|]. split; [exact Hcount|].
    exact (Hagain (Some "again") "GOTHER" "app").
Defined.

(** ** Cancellation *)

Lemma remove_elem o r rows :
  r ∈ db.remove o rows ↔ r ∈ rows ∧ db.id r ≠ db.id o.
Proof. unfold db.remove. rewrite list_elem_of_filter. tauto. Qed.

(** C5, as the code has it: [cancelOrder] has one guard and one error.  On
    an order that is not opened, and on an id that no order has, it throws
    the same "no such open order" error and changes nothing; on an opened
    order it deletes the row. *)
Theorem cancelOrder_guard (w : World) :
  primary_key (orders w) →
  (∀ o, o ∈ orders w → db.status o ≠ db.opened →
     orders.cancelOrder (db.id o) w = (Thrown (NoSuchOpenOrder (db.id o)), w))
  ∧ (∀ i, (∀ o, o ∈ orders w → db.id o ≠ i) →
     orders.cancelOrder i w = (Thrown (NoSuchOpenOrder i), w))
  ∧ (∀ o, o ∈ orders w → db.status o = db.opened →
     ∃ w', orders.cancelOrder (db.id o) w = (Returned (), w')
           ∧ (o ∉ orders w')
           ∧ (∀ r, r ∈ orders w' ↔ r ∈ orders w ∧ db.id r ≠ db.id o)
           ∧ trace w' = trace w ++ [Removed (db.id o)]).
Proof.
  intros Hpk. repeat split.
  - intros o Hin Hs. unfold orders.cancelOrder. run.
    by rewrite (getOne_other_status _ _ _ Hpk Hin).
  - intros i Habs. unfold orders.cancelOrder. run.
    by rewrite (getOne_absent _ _ _ Habs).
  - intros o Hin Hs. unfold orders.cancelOrder. run.
    rewrite (getOne_elem _ _ (Some (db.Is db.opened)) Hpk Hin Hs).
    eexists. split; [reflexivity|]. simpl. split; [|split; [|done]].
    + rewrite remove_elem. by intros [_ ?].
    + intros r. apply remove_elem.
Qed.

Lemma cancelOrder_guard_witness :
  let pending_order := example.order "T1" "U1" db.pending 0 (Some 5) in
  let opened_order := example.order "T2" "U1" db.opened 0 None in
  let w := example.world [pending_order; opened_order] in
  orders.cancelOrder "T1" w = (Thrown (NoSuchOpenOrder "T1"), w)
  ∧ orders.cancelOrder "T9" w = (Thrown (NoSuchOpenOrder "T9"), w)
  ∧ ∃ w', orders.cancelOrder "T2" w = (Returned (), w')
          ∧ (opened_order ∉ orders w').
Proof.
  intros pending_order opened_order w.
  assert (primary_key (orders w)) as Hpk.
  { unfold primary_key. simpl. apply NoDup_cons. split.
    - by intros [=]%list_elem_of_singleton.
    - apply NoDup_singleton. }
  destruct (cancelOrder_guard w Hpk) as (Hclosed & Habsent & Hopened).
  split; [|split].
  - apply (Hclosed pending_order); [apply list_elem_of_here|done].
  - apply (Habsent "T9"). intros o Ho.
    apply elem_of_cons in Ho as [->|Ho]; [done|].
    by apply list_elem_of_singleton in Ho as ->.
  - destruct (Hopened opened_order) as (w' & Hc & Hgone & _).
    + apply list_elem_of_further, list_elem_of_here.
    + done.
    + by exists w'.
Defined.

(** C5, as stated, fails: a pending order and an id that no order has are
    refused with the very same error, so no InvalidState is told apart from
    NotFound. *)
Lemma cancelOrder_one_error :
  fst (orders.cancelOrder "T1"
         (example.world [example.order "T1" "U1" db.pending 0 (Some 5)]))
  = fst (orders.cancelOrder "T1" (example.world []))
  ∧ fst (orders.cancelOrder "T1" (example.world []))
    = Thrown (NoSuchOpenOrder "T1")
  ∧ error_message (NoSuchOpenOrder "T1") = "no such open order T1".
Proof. by vm_compute. Qed.

(** ** Reads and lazy timeout *)

Section reads.

Variable env : Env.

(** [checkIfTimedOut] touches neither the table nor the id and the owner,
    never yields an opened order, and leaves alone an order that is not
    pending. *)
Lemma checkIfTimedOut_spec order w :
  ∃ order' w',
    orders.checkIfTimedOut env order w = (Returned order', w')
    ∧ orders w' = orders w
    ∧ offers w' = offers w
    ∧ (ticks w ≤ ticks w')%nat
    ∧ db.id order' = db.id order
    ∧ db.userId order' = db.userId order
    ∧ (db.status order ≠ db.opened → db.status order' ≠ db.opened)
    ∧ (db.status order ≠ db.pending → order' = order ∧ w' = w)
    ∧ ∃ flips, background w' = background w ++ flips
               ∧ Forall (λ o, db.status o ≠ db.opened) flips.
Proof.
  unfold orders.checkIfTimedOut.
  destruct (decide (db.status order = db.pending)) as [Hs|Hs]; run.
  - destruct (orders.deadline_before _ _); run.
    + eexists _, _. split; [reflexivity|]. simpl.
      repeat split; try done; try lia.
      eexists [_]. split; [reflexivity|]. by repeat constructor.
    + eexists _, _. split; [reflexivity|]. simpl.
      repeat split; try done; try lia.
      exists []. by rewrite app_nil_r.
  - eexists _, _. split; [reflexivity|]. repeat split; try done.
    exists []. by rewrite app_nil_r.
Qed.

(** A pending order whose 45 seconds have passed is flipped in memory; the
    save is started, not completed. *)
Lemma checkIfTimedOut_late order d w :
  db.status order = db.pending →
  db.currentStatusDate order = Some d →
  d + 45 * 1000 < clock env (ticks w) →
  orders.checkIfTimedOut env order w
  = (Returned (db.setStatus db.failed (clock env (S (ticks w))) order),
     emit (SaveStarted (db.setStatus db.failed (clock env (S (ticks w))) order))
       (set_background
          (background w
             ++ [db.setStatus db.failed (clock env (S (ticks w))) order])
          (set_ticks (S (S (ticks w))) w))).
Proof.
  intros Hs Hd Hlate. unfold orders.checkIfTimedOut.
  rewrite decide_True by done. run.
  unfold db.expirationDate. rewrite Hs, Hd. simpl.
  unfold db.date_lt, db.seconds.
  replace (d + 45 * 1000 <? clock env (ticks w)) with true
    by (symmetry; apply Z.ltb_lt; lia).
  reflexivity.
Qed.

Lemma project_all_spec l w :
  Forall (λ o, db.status o ≠ db.opened) l →
  ∃ ps w',
    orders.project_all env l w = (Returned ps, w')
    ∧ orders w' = orders w
    ∧ offers w' = offers w
    ∧ (ticks w ≤ ticks w')%nat
    ∧ Forall2 (reconciled (deadline_passed env (ticks w))) l ps
    ∧ ∃ flips, background w' = background w ++ flips
               ∧ Forall (λ o, db.status o ≠ db.opened) flips.
Proof.
  revert w.
  induction l as [|o l IH]; intros w Hall.
  - exists [], w. simpl. run. repeat split; [lia|constructor|].
    exists []. by rewrite app_nil_r.
  - apply Forall_cons in Hall as [Ho Hall]. simpl.
    destruct (checkIfTimedOut_spec o w)
      as (o' & w1 & Hc & Hrows1 & Hoffers1 & Ht1 & Hid & _ & Hopen & Hsame
          & flips1 & Hbg1 & Hflips1).
    destruct (orderDbToApi_returns o' w1 (Hopen Ho))
      as (p & Hp & Hpid & Hpst & Hpdate).
    destruct (IH w1 Hall)
      as (ps & w2 & Hrest & Hrows2 & Hoffers2 & Ht2 & Hps
          & flips2 & Hbg2 & Hflips2).
    exists (p :: ps), w2. run. rewrite Hc, Hp, Hrest.
    split; [done|]. split; [congruence|]. split; [congruence|].
    split; [lia|].
    split; [|exists (flips1 ++ flips2); split;
               [by rewrite Hbg2, Hbg1, app_assoc|by apply Forall_app]].
    constructor.
    + unfold reconciled. split; [congruence|]. split; [by rewrite Hpst; auto|].
      split.
      * intros Hnp. destruct (Hsame Hnp) as [-> _]. by rewrite Hpst, Hpdate.
      * intros Hpend d Hd Hlate.
        rewrite (checkIfTimedOut_late o d w Hpend Hd) in Hc
          by (apply Hlate; lia).
        injection Hc as <- _. by rewrite Hpst.
    + eapply Forall2_impl; [exact Hps|].
      intros row q (Hqid & Hqopen & Hqsame & Hqlate).
      split; [done|]. split; [done|]. split; [done|].
      intros Hpend d Hd Hlate. apply (Hqlate Hpend d Hd).
      intros n Hn. apply Hlate. lia.
Qed.

End reads.

(** ** The order of the history listing *)

Lemma completion_date_desc_antisym nf a b :
  db.completion_date_desc nf a b = CompOpp (db.completion_date_desc nf b a).
Proof.
  destruct a as [x|], b as [y|], nf; simpl; try done.
  all: apply Z.compare_antisym.
Qed.

Lemma completion_date_desc_Eq nf a b :
  db.completion_date_desc nf a b = Eq → a = b.
Proof.
  destruct a as [x|], b as [y|], nf; simpl; try done.
  all: by intros ->%Z.compare_eq.
Qed.

Lemma completion_date_desc_Lt_trans nf a b c :
  db.completion_date_desc nf a b = Lt → db.completion_date_desc nf b c = Lt →
  db.completion_date_desc nf a c = Lt.
Proof.
  destruct a as [x|], b as [y|], c as [z|], nf; simpl; try done.
  all: rewrite !Z.compare_lt_iff; lia.
Qed.

Lemma id_desc_antisym a b : db.id_desc a b = CompOpp (db.id_desc b a).
Proof. unfold db.id_desc. apply String_as_OT.cmp_antisym. Qed.

Lemma id_desc_Eq a b : db.id_desc a b = Eq → a = b.
Proof. unfold db.id_desc. by intros ->%String_as_OT.cmp_eq. Qed.

Lemma id_desc_Lt_trans a b c :
  db.id_desc a b = Lt → db.id_desc b c = Lt → db.id_desc a c = Lt.
Proof.
  unfold db.id_desc.
  intros H1%String_as_OT.cmp_lt H2%String_as_OT.cmp_lt.
  apply String_as_OT.cmp_lt. by eapply String_as_OT.lt_trans.
Qed.

Lemma id_desc_le_trans a b c :
  db.id_desc a b ≠ Gt → db.id_desc b c ≠ Gt → db.id_desc a c ≠ Gt.
Proof.
  destruct (db.id_desc a b) eqn:Hab; [|
    destruct (db.id_desc b c) eqn:Hbc|done]; intros _ Hc.
  - by apply id_desc_Eq in Hab as ->.
  - by apply id_desc_Eq in Hbc as <-; rewrite Hab.
  - by rewrite (id_desc_Lt_trans _ _ _ Hab Hbc).
  - done.
Qed.

#[global] Instance comes_first_total nf : Total (db.comes_first nf).
Proof.
  intros x y. unfold db.comes_first, db.order_by.
  rewrite (completion_date_desc_antisym nf (db.currentStatusDate y)).
  rewrite (id_desc_antisym (db.id y)).
  destruct (db.completion_date_desc nf _ _); simpl; auto.
  destruct (db.id_desc _ _); simpl; auto.
Qed.

#[global] Instance comes_first_trans nf : Transitive (db.comes_first nf).
Proof.
  intros x y z. unfold db.comes_first, db.order_by.
  destruct (db.completion_date_desc nf (db.currentStatusDate x)
              (db.currentStatusDate y)) eqn:Hxy; [| |done].
  - apply completion_date_desc_Eq in Hxy. rewrite Hxy.
    destruct (db.completion_date_desc nf _ _); [|done|done].
    apply id_desc_le_trans.
  - destruct (db.completion_date_desc nf (db.currentStatusDate y)
                (db.currentStatusDate z)) eqn:Hyz; [| |done].
    + apply completion_date_desc_Eq in Hyz. by rewrite <- Hyz, Hxy.
    + by rewrite (completion_date_desc_Lt_trans _ _ _ _ Hxy Hyz).
Qed.

(** On rows that have a status date, the query's order is the order of the
    coalesced date. *)
Lemma comes_first_newest_first nf x y :
  is_Some (db.currentStatusDate x) → is_Some (db.currentStatusDate y) →
  db.comes_first nf x y → newest_first x y.
Proof.
  intros [a Ha] [b Hb]. unfold db.comes_first, db.order_by, newest_first,
    coalesced_date, db.id_desc. rewrite Ha, Hb. simpl.
  destruct (Z.compare_spec b a) as [->|Hlt|Hgt]; [by right|by left|done].
Qed.

Lemma StronglySorted_newest_first nf l :
  (∀ o, o ∈ l → is_Some (db.currentStatusDate o)) →
  StronglySorted (db.comes_first nf) l → StronglySorted newest_first l.
Proof.
  intros Hdates Hsorted. induction Hsorted as [|x l Hsorted IH Hx].
  - constructor.
  - constructor.
    + apply IH. intros o Ho. apply Hdates. by apply list_elem_of_further.
    + apply Forall_forall. intros y Hy.
      apply (comes_first_newest_first nf).
      * apply Hdates. apply list_elem_of_here.
      * apply Hdates. by apply list_elem_of_further.
      * rewrite Forall_forall in Hx. by apply Hx.
Qed.

(** [getAll]: a prefix of the matching rows in the query's order. *)
Lemma getAll_spec cls nf rows user q limit :
  ∃ matching,
    matching ≡ₚ filter (λ o, db.userId o = user ∧ db.updateQueryWithStatus q o
                             ∧ db.originFilter cls o) rows
    ∧ StronglySorted (db.comes_first nf) matching
    ∧ db.getAll cls nf rows user q limit
      = match limit with
        | Some (S n) => take (S n) matching
        | _ => matching
        end.
Proof.
  exists (merge_sort (db.comes_first nf)
            (filter (λ o, db.userId o = user ∧ db.updateQueryWithStatus q o
                          ∧ db.originFilter cls o) rows)).
  split; [apply merge_sort_Permutation|].
  split; [apply StronglySorted_merge_sort; apply _|]. reflexivity.
Qed.

Lemma StronglySorted_take {A} (R : relation A) n (l : list A) :
  StronglySorted R l → StronglySorted R (take n l).
Proof.
  intros Hsorted. rewrite <- (take_drop n l) in Hsorted.
  by apply StronglySorted_app_1_l in Hsorted.
Qed.

Lemma elem_of_take_elem {A} (x : A) n l : x ∈ take n l → x ∈ l.
Proof.
  intros (i & Hi & _)%elem_of_take. by eapply list_elem_of_lookup_2.
Qed.

Lemma getAll_elem cls nf rows user q limit o :
  o ∈ db.getAll cls nf rows user q limit →
  o ∈ rows ∧ db.userId o = user ∧ db.updateQueryWithStatus q o.
Proof.
  destruct (getAll_spec cls nf rows user q limit) as (m & Hperm & _ & ->).
  intros Hin.
  assert (o ∈ m) as Hm.
  { destruct limit as [[|n]|]; [done| |done]. by eapply elem_of_take_elem. }
  rewrite Hperm in Hm. apply list_elem_of_filter in Hm as [(? & ? & _) ?].
  done.
Qed.

Lemma getAll_sorted cls nf rows user q limit :
  StronglySorted (db.comes_first nf) (db.getAll cls nf rows user q limit).
Proof.
  destruct (getAll_spec cls nf rows user q limit) as (m & _ & Hsorted & ->).
  destruct limit as [[|n]|]; [done| |done]. by apply StronglySorted_take.
Qed.

Lemma getAll_length cls nf rows user q n :
  (length (db.getAll cls nf rows user q (Some (S n))) ≤ S n)%nat.
Proof.
  destruct (getAll_spec cls nf rows user q (Some (S n))) as (m & _ & _ & ->).
  rewrite length_take. lia.
Qed.

Lemma foldl_save_primary_key writes rows :
  primary_key rows → primary_key (foldl (λ t r, db.save r t) rows writes).
Proof.
  revert rows. induction writes as [|r writes IH]; intros rows Hpk; [done|].
  simpl. by apply IH, save_primary_key.
Qed.

Section read_theorems.

Variable env : Env.

Lemma getOrder_late (w : World) (o : db.Order) (d : Z) :
  primary_key (orders w) →
  o ∈ orders w → db.status o = db.pending →
  db.currentStatusDate o = Some d →
  d + 45 * 1000 < clock env (ticks w) →
  ∃ p w' flipped,
    orders.getOrder env (db.id o) w = (Returned p, w')
    ∧ Order.id p = db.id o
    ∧ Order.status p = db.failed
    ∧ orders w' = orders w
    ∧ (ticks w ≤ ticks w')%nat
    ∧ background w' = background w ++ [flipped]
    ∧ db.id flipped = db.id o
    ∧ db.status flipped = db.failed.
Proof.
  intros Hpk Hin Hs Hd Hlate. unfold orders.getOrder. run.
  rewrite (getOne_elem _ _ (Some (db.IsNot db.opened)) Hpk Hin)
    by (simpl; by rewrite Hs).
  rewrite (checkIfTimedOut_late env o d w Hs Hd Hlate).
  set (flipped := db.setStatus db.failed (clock env (S (ticks w))) o).
  match goal with |- context [orders.orderDbToApi flipped ?w1] =>
    destruct (orderDbToApi_returns flipped w1) as (p & Hp & Hid & Hst & _);
      [done|]; rewrite Hp end.
  eexists p, _, flipped. split; [reflexivity|]. simpl.
  repeat split; try done. lia.
Qed.

Lemma getOrder_closed (w : World) (o : db.Order) :
  primary_key (orders w) →
  o ∈ orders w → db.status o ≠ db.opened → db.status o ≠ db.pending →
  ∃ p, orders.getOrder env (db.id o) w = (Returned p, w)
       ∧ Order.status p = db.status o.
Proof.
  intros Hpk Hin Hopen Hpending. unfold orders.getOrder. run.
  rewrite (getOne_elem _ _ (Some (db.IsNot db.opened)) Hpk Hin) by done.
  unfold orders.checkIfTimedOut. rewrite decide_False by done. run.
  destruct (orderDbToApi_returns o w Hopen) as (p & -> & _ & Hst & _).
  by exists p.
Qed.

(** C3: a pending order read after its deadline ([currentStatusDate] + 45
    seconds) comes back as failed, from [getOrder] and in every entry of
    [getOrderHistory].  The value is returned while the save of the flip
    is only in flight (the table still holds the row as it was), and a
    further read returns failed as well, be it made before that write
    completes or after. *)
Theorem pending_read_after_deadline (w : World) :
  monotone_clock env →
  primary_key (orders w) →
  (∀ o d, o ∈ orders w → db.status o = db.pending →
     db.currentStatusDate o = Some d →
     d + 45 * 1000 < clock env (ticks w) →
     ∃ p w' flipped,
       orders.getOrder env (db.id o) w = (Returned p, w')
       ∧ Order.id p = db.id o
       ∧ Order.status p = db.failed
       ∧ orders w' = orders w
       ∧ background w' = background w ++ [flipped]
       ∧ db.id flipped = db.id o
       ∧ db.status flipped = db.failed
       ∧ flipped ∈ orders (settle w')
       ∧ (∃ p2 w2, orders.getOrder env (db.id o) w' = (Returned p2, w2)
                   ∧ Order.status p2 = db.failed)
       ∧ (∃ p2 w2,
            orders.getOrder env (db.id o) (settle w') = (Returned p2, w2)
            ∧ Order.status p2 = db.failed))
  ∧ (∀ userId limit before after,
     ∃ page w',
       orders.getOrderHistory env userId limit before after w
         = (Returned page, w')
       ∧ orders w' = orders w
       ∧ Forall2
           (λ row p, Order.id p = db.id row
              ∧ (db.status row = db.pending →
                 ∀ d, db.currentStatusDate row = Some d →
                      d + 45 * 1000 < clock env (ticks w) →
                      Order.status p = db.failed))
           (db.getAll None (nulls_first env) (orders w) userId
              (Some (db.IsNot db.opened)) (Some (default 25%nat limit)))
           (list_orders page)).
Proof.
  intros Hmono Hpk. split.
  - intros o d Hin Hs Hd Hlate.
    destruct (getOrder_late w o d Hpk Hin Hs Hd Hlate)
      as (p & w' & flipped & Hp & Hid & Hst & Hrows & Hticks & Hbg & Hfid
          & Hfst).
    exists p, w', flipped. repeat (split; [done|]).
    assert (orders (settle w') = db.save flipped
              (foldl (λ t r, db.save r t) (orders w) (background w)))
      as Hsettled.
    { unfold settle. simpl. rewrite Hbg, Hrows, foldl_app. done. }
    split; [rewrite Hsettled; apply elem_of_save|]. split.
    + assert (d + 45 * 1000 < clock env (ticks w')) as Hlate'
        by (specialize (Hmono _ _ Hticks); lia).
      rewrite <- Hrows in Hpk, Hin.
      destruct (getOrder_late w' o d Hpk Hin Hs Hd Hlate')
        as (p2 & w2 & _ & Hp2 & _ & Hst2 & _).
      by exists p2, w2.
    + destruct (getOrder_closed (settle w') flipped)
        as (p2 & Hp2 & Hst2).
      * rewrite Hsettled.
        by apply save_primary_key, foldl_save_primary_key.
      * rewrite Hsettled. apply elem_of_save.
      * by rewrite Hfst.
      * by rewrite Hfst.
      * rewrite Hfid in Hp2. exists p2, (settle w'). by rewrite Hst2.
  - intros userId limit before after. unfold orders.getOrderHistory. run.
    set (found := db.getAll None (nulls_first env) (orders w) userId
                    (Some (db.IsNot db.opened)) (Some (default 25%nat limit))).
    destruct (project_all_spec env found w)
      as (ps & w' & Hps & Hrows & _ & _ & Hall & _).
    { apply Forall_forall. intros o Ho.
      by apply getAll_elem in Ho as (_ & _ & Hq). }
    rewrite Hps. eexists _, _. split; [reflexivity|]. split; [done|]. simpl.
    eapply Forall2_impl; [exact Hall|].
    intros row p (Hid & _ & _ & Hlate). split; [done|].
    intros Hs d Hd Hpast. apply (Hlate Hs d Hd).
    intros n Hn. specialize (Hmono _ _ Hn). lia.
Qed.

(** The cursors are not read. *)
Lemma getOrderHistory_cursors_unused userId limit before after before' after' w :
  orders.getOrderHistory env userId limit before after w
  = orders.getOrderHistory env userId limit before' after' w.
Proof. reflexivity. Qed.

(** C2, as the code has it: the page holds the projections of the first
    rows of the user's orders that are not opened, taken in the query's
    order (completion_date descending, id descending), which on rows that
    have a status date is the order of the coalesced date; with a positive
    [limit] these are the first [limit] rows, or all of them if there are
    fewer. *)
Theorem getOrderHistory_page (w : World) (userId : string)
    (limit : option nat) (before after : option string) :
  ∃ page w' found rest,
    orders.getOrderHistory env userId limit before after w
      = (Returned page, w')
    ∧ found ++ rest ≡ₚ filter (λ o, db.userId o = userId
                                   ∧ db.status o ≠ db.opened) (orders w)
    ∧ StronglySorted (db.comes_first (nulls_first env)) (found ++ rest)
    ∧ ((∀ o, o ∈ found → is_Some (db.currentStatusDate o)) →
         StronglySorted newest_first found)
    ∧ Forall2 (reconciled (deadline_passed env (ticks w)))
        found (list_orders page)
    ∧ ((0 < default 25 limit)%nat →
         length (list_orders page)
         = (default 25 limit `min` length (found ++ rest))%nat).
Proof.
  unfold orders.getOrderHistory. run.
  destruct (getAll_spec None (nulls_first env) (orders w) userId
              (Some (db.IsNot db.opened)) (Some (default 25%nat limit)))
    as (matching & Hperm & Hsorted & Hfound).
  set (found := db.getAll None (nulls_first env) (orders w) userId
                  (Some (db.IsNot db.opened)) (Some (default 25%nat limit)))
    in *.
  destruct (project_all_spec env found w)
    as (ps & w' & Hps & _ & _ & _ & Hall & _).
  { apply Forall_forall. intros o Ho.
    by apply getAll_elem in Ho as (_ & _ & Hq). }
  rewrite Hps. clearbody found.
  assert (∃ rest, matching = found ++ rest
                  ∧ ((0 < default 25 limit)%nat →
                     length found
                     = (default 25 limit `min` length matching)%nat))
    as (rest & Hsplit & Hlen).
  { rewrite Hfound. destruct (default 25%nat limit) as [|n].
    - exists []. split; [by rewrite app_nil_r|]. intros Hpos. lia.
    - exists (drop (S n) matching). split; [by rewrite take_drop|].
      intros _. apply length_take. }
  eexists _, _, found, rest. split; [reflexivity|]. rewrite <- Hsplit.
  split.
  { rewrite Hperm.
    rewrite (list_filter_iff _ (λ o, db.userId o = userId
                                     ∧ db.status o ≠ db.opened));
      [done|]. intros o. simpl. tauto. }
  split; [done|]. split.
  { intros Hdates. eapply StronglySorted_newest_first; [done|].
    rewrite Hsplit in Hsorted. by apply StronglySorted_app_1_l in Hsorted. }
  simpl. split; [exact Hall|].
  intros Hpos. rewrite <- (Forall2_length _ _ _ Hall). by apply Hlen.
Qed.

End read_theorems.

Lemma example_clock_monotone : monotone_clock example.env.
Proof. intros n m Hnm. simpl. lia. Qed.

Lemma pending_read_after_deadline_witness :
  let late := example.order "T1" "U1" db.pending 0 (Some 0) in
  let w := example.world [late] in
  (∃ p w' flipped,
     orders.getOrder example.env "T1" w = (Returned p, w')
     ∧ Order.status p = db.failed
     ∧ orders w' = [late]
     ∧ background w' = [flipped]
     ∧ db.status flipped = db.failed
     ∧ flipped ∈ orders (settle w'))
  ∧ ∃ page w',
      orders.getOrderHistory example.env "U1" None None None w
        = (Returned page, w')
      ∧ Order.status <$> list_orders page = [db.failed].
Proof.
  intros late w.
  destruct (pending_read_after_deadline example.env w
              example_clock_monotone (NoDup_singleton _)) as [Hget Hlist].
  split.
  - destruct (Hget late 0) as (p & w' & flipped & Hp & _ & Hst & Hrows & Hbg
                               & _ & Hfl & Hsettled & _).
    + apply list_elem_of_here.
    + reflexivity.
    + reflexivity.
    + reflexivity.
    + exists p, w', flipped. by repeat split.
  - destruct (Hlist "U1" None None None) as (page & w' & Hp & _ & Hall).
    exists page, w'. split; [exact Hp|].
    apply Forall2_cons_inv_l in Hall as (p & ps & [_ Hlate] & Hnil & ->).
    apply Forall2_nil_inv_l in Hnil as ->. simpl. f_equal.
    by apply (Hlate eq_refl 0).
Defined.

Lemma getOrderHistory_page_witness :
  let oldest := example.order "T1" "U1" db.completed 0 (Some 100) in
  let newest := example.order "T2" "U1" db.failed 0 (Some 300) in
  let middle := example.order "T3" "U1" db.completed 0 (Some 200) in
  let opened := example.order "T4" "U1" db.opened 400 None in
  let w := example.world [oldest; newest; middle; opened] in
  ∃ page w',
    orders.getOrderHistory example.env "U1" (Some 2%nat) None None w
      = (Returned page, w')
    ∧ Order.id <$> list_orders page = ["T2"; "T3"]
    ∧ (length (list_orders page) ≤ 2)%nat.
Proof.
  intros oldest newest middle opened w.
  destruct (getOrderHistory_page example.env w "U1" (Some 2%nat) None None)
    as (page & w' & found & rest & Hp & _ & _ & _ & _ & Hlen).
  exists page, w'. split; [exact Hp|]. split.
  - vm_compute in Hp. by injection Hp as <- _.
  - rewrite Hlen; [apply Nat.le_min_l|apply Nat.lt_0_succ].
Defined.

(** C2, as stated, fails.  The cursors are not read: a page of one entry is
    the newest order, and asking for what comes after the cursor it
    carries, or for any other cursors, gives that same page, so the older
    order is on no page.  A [limit] of 0 lists everything.  A row without
    status date is listed where the database puts NULLs, not at its
    creation date: first although it is the oldest, last although it is
    the newest. *)
Lemma getOrderHistory_not_as_stated :
  (let older := example.order "T1" "U1" db.completed 0 (Some 100) in
   let newer := example.order "T2" "U1" db.completed 0 (Some 200) in
   let w := example.world [older; newer] in
   (∃ page w',
      orders.getOrderHistory example.env "U1" (Some 1%nat) None None w
        = (Returned page, w')
      ∧ Order.id <$> list_orders page = ["T2"]
      ∧ ∃ page2 w2,
          orders.getOrderHistory example.env "U1" (Some 1%nat) None
            (Some (cursor_after (cursors (paging page)))) w'
          = (Returned page2, w2)
          ∧ Order.id <$> list_orders page2 = ["T2"])
   ∧ (∀ before after, ∃ page w',
        orders.getOrderHistory example.env "U1" (Some 1%nat) before after w
          = (Returned page, w')
        ∧ Order.id <$> list_orders page = ["T2"])
   ∧ ∃ page w',
       orders.getOrderHistory example.env "U1" (Some 0%nat) None None w
         = (Returned page, w')
       ∧ length (list_orders page) = 2%nat)
  ∧ (let undated := example.order "T3" "U1" db.completed 100 None in
     let dated := example.order "T4" "U1" db.completed 0 (Some 200) in
     ∃ page w',
       orders.getOrderHistory example.env "U1" None None None
         (example.world [undated; dated]) = (Returned page, w')
       ∧ Order.completion_date <$> list_orders page = [100; 200])
  ∧ (let undated := example.order "T3" "U1" db.completed 300 None in
     let dated := example.order "T4" "U1" db.completed 0 (Some 200) in
     ∃ page w',
       orders.getOrderHistory example.env_nulls_last "U1" None None None
         (example.world [undated; dated]) = (Returned page, w')
       ∧ Order.completion_date <$> list_orders page = [200; 300]).
Proof.
  repeat split.
  - eexists _, _. split; [reflexivity|]. split; [reflexivity|].
    by eexists _, _.
  - intros before after. by eexists _, _.
  - by eexists _, _.
  - by eexists _, _.
  - by eexists _, _.
Qed.

(** ** Creation *)

Lemma length_filter_save (P : db.Order → Prop) `{∀ o, Decision (P o)}
    (o : db.Order) (rows : list db.Order) :
  (length (filter P (db.save o rows))
   ≤ length (filter P rows) + (if decide (P o) then 1 else 0))%nat.
Proof.
  induction rows as [|r rows IH]; simpl.
  - rewrite filter_cons, filter_nil. destruct (decide (P o)); simpl; lia.
  - destruct (decide (db.id r = db.id o)).
    + rewrite !filter_cons.
      destruct (decide (P o)), (decide (P r)); simpl; lia.
    + rewrite !filter_cons. destruct (decide (P r)); simpl; lia.
Qed.



Lemma findOne_opened_Some rows user offer o :
  db.findOne_opened rows user offer = Some o →
  o ∈ rows ∧ db.userId o = user ∧ db.offerId o = offer
  ∧ db.status o = db.opened.
Proof.
  unfold db.findOne_opened. intros Hhead%head_Some_elem_of.
  apply list_elem_of_filter in Hhead. tauto.
Qed.


(** Saving a row that is not an opened marketplace order, or one for a pair
    that has none, keeps the pairs at one opened order at most. *)
Lemma open_marketplace_orders_save_closed rows o user offer :
  ¬ (db.origin o = db.marketplace ∧ db.status o = db.opened) →
  (length (open_marketplace_orders (db.save o rows) user offer)
   ≤ length (open_marketplace_orders rows user offer))%nat.
Proof.
  intros Hclosed. unfold open_marketplace_orders.
  etrans; [apply length_filter_save; apply _|].
  rewrite decide_False by tauto. lia.
Qed.


Lemma count_offer_save_le rows o offer :
  db.count_offer (db.save o rows) offer
  ≤ db.count_offer rows offer + (if decide (db.offerId o = offer) then 1 else 0).
Proof.
  unfold db.count_offer.
  pose proof (length_filter_save (λ r, db.offerId r = offer) o rows) as Hle.
  destruct (decide (db.offerId o = offer)); lia.
Qed.



Lemma no_write w : one_write w w.
Proof.
  split; [done|]. split; [|by left]. exists []. by rewrite app_nil_r.
Qed.

Lemma settle_one_open_order w : one_open_order w → one_open_order (settle w).
Proof.
  intros [Hone Hclosed]. split; [|by constructor].
  unfold settle. simpl. revert Hone. generalize (orders w) as rows.
  induction Hclosed as [|o flips Ho Hflips IH]; intros rows Hone; [done|].
  simpl. apply IH. intros user offer.
  etrans; [apply open_marketplace_orders_save_closed|apply Hone].
  by intros [_ ?].
Qed.

Section creation.

Variable env : Env.

Lemma toOpenOrder_opened order w :
  db.status order = db.opened →
  orders.toOpenOrder order w
  = (Returned {| OpenOrder.id := db.id order;
                 OpenOrder.expiration_date
                   := db.createdDate order + 10 * 60 * 1000 |}, w).
Proof.
  intros Hs. unfold orders.toOpenOrder, db.expirationDate. by rewrite Hs.
Qed.

Lemma toOpenOrder_pure order w r w' :
  orders.toOpenOrder order w = (r, w') → w' = w.
Proof.
  unfold orders.toOpenOrder.
  destruct (db.expirationDate order) as [[]|]; run; by intros [= _ <-].
Qed.

(** What [createMarketplaceOrder] does, case by case. *)
Lemma createMarketplaceOrder_cases offerId userId w :
  (offerDb.findOne (offers w) offerId = None
   ∧ orders.createMarketplaceOrder env offerId userId w
     = (Thrown (OfferNotFound offerId), w))
  ∨ (∃ offer existing,
       offerDb.findOne (offers w) offerId = Some offer
       ∧ db.findOne_opened (orders w) userId offerId = Some existing
       ∧ orders.createMarketplaceOrder env offerId userId w
         = (Returned {| OpenOrder.id := db.id existing;
                        OpenOrder.expiration_date
                          := db.createdDate existing + 10 * 60 * 1000 |}, w))
  ∨ (∃ offer,
       offerDb.findOne (offers w) offerId = Some offer
       ∧ db.findOne_opened (orders w) userId offerId = None
       ∧ (db.count_offer (orders w) offerId = offerDb.total (offerDb.cap offer)
          ∨ db.count_user_offer (orders w) userId offerId
            = offerDb.per_user (offerDb.cap offer))
       ∧ orders.createMarketplaceOrder env offerId userId w
         = (Thrown (OfferCapReached offerId), w))
  ∨ (∃ offer order w',
       offerDb.findOne (offers w) offerId = Some offer
       ∧ db.findOne_opened (orders w) userId offerId = None
       ∧ db.count_offer (orders w) offerId ≠ offerDb.total (offerDb.cap offer)
       ∧ db.count_user_offer (orders w) userId offerId
         ≠ offerDb.per_user (offerDb.cap offer)
       ∧ orders.createMarketplaceOrder env offerId userId w
         = (Returned {| OpenOrder.id := db.id order;
                        OpenOrder.expiration_date
                          := db.createdDate order + 10 * 60 * 1000 |}, w')
       ∧ orders w' = db.save order (orders w)
       ∧ offers w' = offers w
       ∧ background w' = background w
       ∧ trace w' = trace w ++ [Saved order]
       ∧ db.id order = generateId env (drawn w)
       ∧ db.createdDate order = clock env (ticks w)
       ∧ db.origin order = db.marketplace
       ∧ db.status order = db.opened
       ∧ db.userId order = userId
       ∧ db.offerId order = offerId
       ∧ db.amount order = offerDb.amount offer).
Proof.
  unfold orders.createMarketplaceOrder, orders.create. run.
  destruct (offerDb.findOne (offers w) offerId) as [offer|] eqn:Hoffer;
    [|by left].
  right.
  destruct (db.findOne_opened (orders w) userId offerId) as [existing|]
    eqn:Hopen; simpl.
  - left. exists offer, existing. split; [done|]. split; [done|].
    apply findOne_opened_Some in Hopen as (_ & _ & _ & Hs).
    by apply toOpenOrder_opened.
  - right.
    destruct (decide (db.count_offer (orders w) offerId
                      = offerDb.total (offerDb.cap offer))) as [Htotal|Htotal];
      simpl.
    { left. exists offer. split; [done|]. split; [done|]. split; [by left|done]. }
    destruct (decide (db.count_user_offer (orders w) userId offerId
                      = offerDb.per_user (offerDb.cap offer)))
      as [Huser|Huser]; simpl.
    { left. exists offer. split; [done|]. split; [done|]. split; [by right|done]. }
    right. unfold orders.new. simpl. eexists offer, _, _.
    split; [done|]. split; [done|]. split; [done|]. split; [done|].
    split; [reflexivity|]. by repeat split.
Qed.

Lemma createMarketplaceOrder_one_write offerId userId w :
  one_write w (snd (orders.createMarketplaceOrder env offerId userId w)).
Proof.
  destruct (createMarketplaceOrder_cases offerId userId w)
    as [[_ ->]|[(? & ? & _ & _ & ->)|[(? & _ & _ & _ & ->)
        |(offer & order & w' & _ & Hopen & _ & _ & -> & Hrows & Hoffers
          & Hbg & _ & _ & _ & _ & _ & Hu & Ho & _)]]];
    simpl; try apply no_write.
  split; [done|]. split; [exists []; by rewrite app_nil_r|].
  right; right; left. exists order. split; [done|]. by rewrite Hu, Ho.
Qed.

Lemma createExternalOrder_one_write jwt userId w :
  one_write w (snd (orders.createExternalOrder env jwt userId w)).
Proof.
  unfold orders.createExternalOrder.
  destruct (validateSpendJWT env jwt) as [offer|]; [|apply no_write].
  run. destruct (db.findOne_opened _ _ _) as [existing|]; simpl.
  - destruct (orders.toOpenOrder existing w) as [r w'] eqn:Hr.
    apply toOpenOrder_pure in Hr as ->. destruct r; apply no_write.
  - unfold orders.new. simpl. split; [done|].
    split; [exists []; by rewrite app_nil_r|].
    right; left. eexists. split; [reflexivity|]. simpl. by intros [? _].
Qed.

Lemma submitOrder_one_write orderId form walletAddress appId w :
  one_write w
    (snd (orders.submitOrder env orderId form walletAddress appId w)).
Proof.
  assert (∀ o now w1,
            offers w1 = offers w → background w1 = background w →
            orders w1 = db.save (db.setStatus db.pending now o) (orders w) →
            one_write w w1) as Hsaved.
  { intros o now w1 Hoffers Hbg Hrows. split; [done|].
    split; [exists []; by rewrite Hbg, app_nil_r|].
    right; left. eexists. split; [exact Hrows|]. simpl. by intros [_ ?]. }
  unfold orders.submitOrder. run.
  destruct (db.findOne_by_id _ _) as [o|]; [|apply no_write].
  destruct (decide (db.status o ≠ db.opened)).
  { destruct (orders.orderDbToApi o w) as [r w'] eqn:Hp.
    apply orderDbToApi_pure in Hp as [-> _]. apply no_write. }
  run. destruct (orders.after_deadline _ _); simpl.
  { split; [done|]. split; [exists []; by rewrite app_nil_r|]. by left. }
  destruct (offerDb.findOne _ _) as [offer|]; simpl.
  2:{ split; [done|]. split; [exists []; by rewrite app_nil_r|]. by left. }
  destruct (offerDb.type offer); simpl.
  - destruct (isValid env _ _); simpl.
    2:{ split; [done|]. split; [exists []; by rewrite app_nil_r|]. by left. }
    unfold orders.payment_payTo. simpl. destruct (payTo env _ _ _ _); simpl.
    + by eapply Hsaved.
    + by eapply Hsaved.
  - by eapply Hsaved.
Qed.

Lemma cancelOrder_one_write orderId w :
  one_write w (snd (orders.cancelOrder orderId w)).
Proof.
  unfold orders.cancelOrder. run.
  destruct (db.getOne _ _ _ _) as [o|]; simpl; [|apply no_write].
  split; [done|]. split; [exists []; by rewrite app_nil_r|].
  right; right; right. by exists o.
Qed.

Lemma getOrder_one_write orderId w :
  one_write w (snd (orders.getOrder env orderId w)).
Proof.
  unfold orders.getOrder. run.
  destruct (db.getOne _ _ _ _) as [o|]; simpl; [|apply no_write].
  destruct (checkIfTimedOut_spec env o w)
    as (o' & w1 & -> & Hrows & Hoffers & _ & _ & _ & _ & _ & Hflips).
  destruct (orders.orderDbToApi o' w1) as [r w'] eqn:Hp.
  apply orderDbToApi_pure in Hp as [-> _].
  assert (one_write w w1) as Hw by (split; [done|]; split; [done|by left]).
  by destruct r.
Qed.

Lemma getOrderHistory_one_write userId limit before after w :
  one_write w
    (snd (orders.getOrderHistory env userId limit before after w)).
Proof.
  unfold orders.getOrderHistory. run.
  set (found := db.getAll _ _ _ _ _ _).
  destruct (project_all_spec env found w)
    as (ps & w' & -> & Hrows & Hoffers & _ & _ & Hflips).
  { apply Forall_forall. intros o Ho.
    by apply getAll_elem in Ho as (_ & _ & Hq). }
  simpl. split; [done|]. split; [done|by left].
Qed.

End creation.

#[global] Hint Resolve createMarketplaceOrder_one_write
  createExternalOrder_one_write submitOrder_one_write cancelOrder_one_write
  getOrder_one_write getOrderHistory_one_write settle_one_open_order : writes.


Section creation_theorems.

Variable env : Env.



(** Served one at a time from a store within its caps,
    [createMarketplaceOrder] keeps every offer within its [cap.total]. *)
Lemma createMarketplaceOrder_within_cap offerId userId w :
  within_cap w →
  within_cap (snd (orders.createMarketplaceOrder env offerId userId w)).
Proof.
  intros Hcap.
  destruct (createMarketplaceOrder_cases env offerId userId w)
    as [[_ ->]|[(? & ? & _ & _ & ->)|[(? & _ & _ & _ & ->)
        |(offer & order & w' & Hoffer & _ & Htotal & _ & -> & Hrows & Hoffers
          & _ & _ & _ & _ & _ & _ & _ & Ho & _)]]]; simpl; try done.
  intros offerId' offer' Hoffer'. rewrite Hoffers in Hoffer'.
  rewrite Hrows. specialize (Hcap offerId' offer' Hoffer').
  pose proof (count_offer_save_le (orders w) order offerId') as Hle.
  destruct (decide (db.offerId order = offerId')) as [Heq|Hne]; [|lia].
  rewrite Ho in Heq. subst offerId'.
  assert (offer' = offer) as -> by congruence. lia.
Qed.

Lemma createMarketplaceOrder_sequence_within_cap calls w :
  within_cap w →
  within_cap
    (foldl (λ w call, snd (orders.createMarketplaceOrder env call.1 call.2 w))
           w calls).
Proof.
  revert w. induction calls as [|[offerId userId] calls IH]; intros w Hcap;
    [done|].
  simpl. apply IH. by apply createMarketplaceOrder_within_cap.
Qed.

(** A call that nothing interrupts is [createMarketplaceOrder]. *)
Lemma uninterrupted_createMarketplaceOrder offerId userId w :
  orders.uninterrupted env 5 (orders.AwaitOffer offerId userId) w
  = (orders.Settled (orders.createMarketplaceOrder env offerId userId w).1,
     (orders.createMarketplaceOrder env offerId userId w).2).
Proof.
  unfold orders.createMarketplaceOrder, orders.create. run.
  cbn [orders.uninterrupted orders.resume].
  destruct (offerDb.findOne (offers w) offerId) as [offer|]; [|done].
  cbn [orders.resume].
  destruct (db.findOne_opened (orders w) userId offerId) as [existing|].
  { unfold orders.settle_with.
    destruct (orders.toOpenOrder existing w) as [[] ?]; done. }
  cbn [orders.resume].
  destruct (decide _); [done|]. cbn [orders.resume].
  destruct (decide _); [done|]. cbn [orders.resume].
  unfold orders.new, await_save, orders.settle_with. simpl. done.
Qed.


End creation_theorems.



(** C1, where the code departs from it.  The offer has [cap.total = 1] and
    [cap.per_user = 1].  Two calls for two users, resumed in turn (nothing
    serialises them), both pass the checks and both save: two orders for a
    cap of one.  From then on the number of orders is past the cap, the
    test [total === offer.cap.total] is false, and a third user, who has no
    opened order, gets a third order.  The same happens on any table that
    holds more orders than the cap. *)
Theorem createMarketplaceOrder_past_cap :
  offerDb.total (offerDb.cap example.offer) = 1
  ∧ (let '(settled, w2) :=
       orders.interleave example.env [0; 1; 0; 1; 0; 1; 0; 1; 0; 1]%nat
         [orders.AwaitOffer "O1" "U1"; orders.AwaitOffer "O1" "U2"]
         (example.world []) in
     settled
     = [orders.Settled
          (Returned {| OpenOrder.id := "T0";
                       OpenOrder.expiration_date := 1600000 |});
        orders.Settled
          (Returned {| OpenOrder.id := "T1";
                       OpenOrder.expiration_date := 1600001 |})]
     ∧ db.count_offer (orders w2) "O1" = 2
     ∧ db.findOne_opened (orders w2) "U3" "O1" = None
     ∧ ∃ w3,
         orders.createMarketplaceOrder example.env "O1" "U3" w2
         = (Returned {| OpenOrder.id := "T2";
                        OpenOrder.expiration_date := 1600002 |}, w3)
         ∧ db.count_offer (orders w3) "O1" = 3)
  ∧ (let w := example.world
                [example.order "T7" "U1" db.completed 0 (Some 5);
                 example.order "T8" "U2" db.pending 0 (Some 6)] in
     db.count_offer (orders w) "O1" = 2
     ∧ db.findOne_opened (orders w) "U3" "O1" = None
     ∧ ∃ w',
         orders.createMarketplaceOrder example.env "O1" "U3" w
         = (Returned {| OpenOrder.id := "T0";
                        OpenOrder.expiration_date := 1600000 |}, w')
         ∧ db.count_offer (orders w') "O1" = 3).
Proof.
  split; [reflexivity|]. split.
  - vm_compute. repeat split. eexists. split; reflexivity.
  - vm_compute. repeat split. eexists. split; reflexivity.
Qed.

(** ** The rate limiter *)

Section rate_limit.
Local Open Scope Q_scope.

Variable toString : Q → string.

Lemma show_Qeq x y :
  x == y → RateLimit.show toString x = RateLimit.show toString y.
Proof. intros Heq. unfold RateLimit.show. by rewrite (Qred_complete _ _ Heq). Qed.

Lemma bucketSize_ge_1 rl : 1 <= RateLimit.bucketSize rl.
Proof. unfold RateLimit.bucketSize. apply Q.le_max_r. Qed.

Lemma bucketSize_pos rl : 0 < RateLimit.bucketSize rl.
Proof. pose proof (bucketSize_ge_1 rl). lra. Qed.

Lemma inject_nat_S (k : nat) :
  inject_Z (Z.of_nat (S k)) == inject_Z (Z.of_nat k) + 1.
Proof. rewrite Nat2Z.inj_succ. unfold Z.succ. by rewrite inject_Z_plus. Qed.


(** The [k]-th bucket back starts within the window exactly when [k] is
    one of the [slots]. *)
Lemma slot_in_window rl (k : nat) :
  inject_Z (Z.of_nat k) * RateLimit.bucketSize rl < RateLimit.windowSize rl
  ↔ (k < RateLimit.slots rl)%nat.
Proof.
  pose proof (bucketSize_pos rl) as Hpos.
  set (b := RateLimit.bucketSize rl) in *.
  set (W := RateLimit.windowSize rl).
  unfold RateLimit.slots. fold b W.
  pose proof (Qle_ceiling (W / b)) as Hup.
  pose proof (Qceiling_lt (W / b)) as Hdown.
  assert (W / b * b == W) as Hdiv by (field; lra).
  split.
  - intros Hlt.
    assert (inject_Z (Z.of_nat k) < W / b) as Hk
      by (apply Qlt_shift_div_l; [done|exact Hlt]).
    assert (inject_Z (Z.of_nat k) < inject_Z (Qceiling (W / b))) as Hz by lra.
    rewrite <- Zlt_Qlt in Hz. lia.
  - intros Hlt.
    assert (Z.of_nat k <= Qceiling (W / b) - 1)%Z as Hz by lia.
    rewrite Zle_Qle in Hz.
    assert (inject_Z (Z.of_nat k) < W / b) as Hk by lra.
    rewrite <- Hdiv. by apply Qmult_lt_r.
Qed.

Lemma enough_for_slots rl : (RateLimit.slots rl <= RateLimit.enough rl)%nat.
Proof.
  pose proof (bucketSize_ge_1 rl) as Hge.
  unfold RateLimit.slots, RateLimit.enough.
  set (b := RateLimit.bucketSize rl) in *.
  set (W := RateLimit.windowSize rl).
  destruct (Qlt_le_dec 0 W) as [Hpos|Hneg].
  - assert (W / b <= W) as Hle.
    { apply Qle_shift_div_r; [lra|]. nra. }
    apply Qceiling_resp_le in Hle. lia.
  - assert (W / b <= 0) as Hle.
    { apply Qle_shift_div_r; [lra|]. lra. }
    apply Qceiling_resp_le in Hle. change (Qceiling 0) with 0%Z in Hle. lia.
Qed.

(** The loop pushes the keys of the slots, newest first, and ends. *)
Lemma windowLoop_slots rl current fuel (k : nat) i windowKeys :
  i == inject_Z (Z.of_nat k) * RateLimit.bucketSize rl →
  (RateLimit.slots rl - k <= fuel)%nat →
  RateLimit.windowLoop toString rl current fuel i windowKeys
  = Some (windowKeys
          ++ ((λ j : nat, RateLimit.bucketName toString rl
                 (current - inject_Z (Z.of_nat j) * RateLimit.bucketSize rl))
              <$> seq k (RateLimit.slots rl - k))).
Proof.
  revert k i windowKeys.
  induction fuel as [|fuel IH]; intros k i windowKeys Hi Hfuel.
  - simpl. destruct (Qlt_le_dec i (RateLimit.windowSize rl)) as [Hlt|Hge].
    + rewrite Hi in Hlt. apply slot_in_window in Hlt. lia.
    + replace (RateLimit.slots rl - k)%nat with 0%nat by lia.
      simpl. by rewrite app_nil_r.
  - simpl. destruct (Qlt_le_dec i (RateLimit.windowSize rl)) as [Hlt|Hge].
    + rewrite Hi in Hlt. apply slot_in_window in Hlt.
      rewrite (IH (S k)).
      * replace (RateLimit.slots rl - k)%nat
          with (S (RateLimit.slots rl - S k))%nat by lia.
        simpl. rewrite <- app_assoc. simpl. do 3 f_equal.
        unfold RateLimit.bucketName. f_equal. apply show_Qeq.
        by rewrite Hi.
      * rewrite Hi, inject_nat_S. ring.
      * lia.
    + assert (¬ (k < RateLimit.slots rl)%nat) as Hout.
      { intros Hk%slot_in_window. rewrite <- Hi in Hk. lra. }
      replace (RateLimit.slots rl - k)%nat with 0%nat by lia.
      simpl. by rewrite app_nil_r.
Qed.


(** The check always comes to an answer. *)
Lemma check_returns rl step now r :
  is_Some (RateLimit.check toString rl step now r).
Proof.
  unfold RateLimit.check.
  rewrite (windowLoop_slots rl _ _ 0%nat);
    [done|simpl; ring|pose proof (enough_for_slots rl); lia].
Qed.



End rate_limit.


(** * Further properties of the order services *)

(** ** Submission: the accepted path and the refusals *)

Section submission_more.

Variable env : Env.

(** X1: an opened order submitted no later than its deadline, for an offer that
    is found, with a valid form and an accepted payment when the offer is an
    earn offer: the row becomes pending, dated by the second clock read, the
    payment is requested once with the wallet, the application, the offer's
    amount and the order id (an earn offer) or not at all (a spend offer),
    and the projection of the pending row is returned. *)
Theorem submitOrder_accepted (w : World) (o : db.Order) (offer : offerDb.Offer)
    (form : option string) (walletAddress appId : string) :
  primary_key (orders w) →
  o ∈ orders w →
  db.status o = db.opened →
  clock env (ticks w) ≤ db.createdDate o + 10 * 60 * 1000 →
  offerDb.findOne (offers w) (db.offerId o) = Some offer →
  (offerDb.type offer = offerDb.earn →
     isValid env (offerDb.id offer) form = true
     ∧ payTo env walletAddress appId (offerDb.amount offer) (db.id o) = true) →
  ∃ p w',
    orders.submitOrder env (db.id o) form walletAddress appId w
      = (Returned p, w')
    ∧ Order.id p = db.id o
    ∧ Order.status p = db.pending
    ∧ Order.completion_date p = clock env (S (ticks w))
    ∧ orders w'
      = db.save (db.setStatus db.pending (clock env (S (ticks w))) o) (orders w)
    ∧ db.findOne_by_id (orders w') (db.id o)
      = Some (db.setStatus db.pending (clock env (S (ticks w))) o)
    ∧ trace w'
      = trace w
        ++ [Saved (db.setStatus db.pending (clock env (S (ticks w))) o)]
        ++ match offerDb.type offer with
           | offerDb.earn =>
               [Paid walletAddress appId (offerDb.amount offer) (db.id o)]
           | offerDb.spend => []
           end
        ++ [SubmitMetric (offerDb.type offer) (offerDb.id offer)]
    ∧ background w' = background w
    ∧ ticks w' = S (S (ticks w)).
Proof.
  intros Hpk Hin Hs Hintime Hoffer Hearn.
  unfold orders.submitOrder. run.
  rewrite (findOne_by_id_elem _ _ Hpk Hin).
  rewrite decide_False by (intros Hne; by apply Hne).
  unfold db.expirationDate. rewrite Hs. simpl.
  unfold orders.after_deadline, db.date_gt, db.date_lt, db.minutes. simpl.
  replace (db.createdDate o + 10 * 60000 <? clock env (ticks w)) with false
    by (symmetry; apply Z.ltb_ge; lia).
  change (offers (set_ticks (S (ticks w)) w)) with (offers w).
  rewrite Hoffer.
  assert (∀ w1, ∃ p,
            orders.orderDbToApi
              (db.setStatus db.pending (clock env (S (ticks w))) o) w1
            = (Returned p, w1)
            ∧ Order.id p = db.id o ∧ Order.status p = db.pending
            ∧ Order.completion_date p = clock env (S (ticks w)))
    as Hproj.
  { intros w1.
    destruct (orderDbToApi_returns
                (db.setStatus db.pending (clock env (S (ticks w))) o) w1)
      as (p & Hp & ? & ? & ?); [done|]. by exists p. }
  destruct (offerDb.type offer) eqn:Htype; simpl.
  - destruct (Hearn eq_refl) as [-> Hpay]. simpl.
    unfold orders.payment_payTo. simpl. rewrite Hpay. simpl.
    match goal with |- context [orders.orderDbToApi _ ?w1] =>
      destruct (Hproj w1) as (p & -> & Hid & Hst & Hdate) end.
    eexists p, _. split; [reflexivity|]. simpl.
    repeat (split; [done|]).
    split; [apply (findOne_by_id_save (orders w)
                     (db.setStatus db.pending (clock env (S (ticks w))) o))|].
    split; [by rewrite <- !app_assoc|done].
  - match goal with |- context [orders.orderDbToApi _ ?w1] =>
      destruct (Hproj w1) as (p & -> & Hid & Hst & Hdate) end.
    eexists p, _. split; [reflexivity|]. simpl.
    repeat (split; [done|]).
    split; [apply (findOne_by_id_save (orders w)
                     (db.setStatus db.pending (clock env (S (ticks w))) o))|].
    split; [by rewrite <- !app_assoc|done].
Qed.

(** X2: what [submitOrder] refuses it refuses before writing: an id that no
    order has, an order whose offer is gone, an earn form that is not
    valid.  The table, the writes in flight and the trace stay as they
    were, so nothing is saved and no payment is requested. *)
Theorem submitOrder_refused (w : World) (form : option string)
    (walletAddress appId : string) :
  primary_key (orders w) →
  (∀ orderId, (∀ r, r ∈ orders w → db.id r ≠ orderId) →
     orders.submitOrder env orderId form walletAddress appId w
     = (Thrown (NoSuchOrder orderId), w))
  ∧ (∀ o, o ∈ orders w → db.status o = db.opened →
       clock env (ticks w) ≤ db.createdDate o + 10 * 60 * 1000 →
       offerDb.findOne (offers w) (db.offerId o) = None →
       ∃ w', orders.submitOrder env (db.id o) form walletAddress appId w
             = (Thrown (NoSuchOffer (db.offerId o)), w')
             ∧ same_store w w')
  ∧ (∀ o offer, o ∈ orders w → db.status o = db.opened →
       clock env (ticks w) ≤ db.createdDate o + 10 * 60 * 1000 →
       offerDb.findOne (offers w) (db.offerId o) = Some offer →
       offerDb.type offer = offerDb.earn →
       isValid env (offerDb.id offer) form = false →
       ∃ w', orders.submitOrder env (db.id o) form walletAddress appId w
             = (Thrown (InvalidForm (db.id o)), w')
             ∧ same_store w w').
Proof.
  intros Hpk. split; [|split].
  - intros orderId Habsent. unfold orders.submitOrder. run.
    replace (db.findOne_by_id (orders w) orderId) with (@None db.Order); [done|].
    symmetry. unfold db.findOne_by_id. apply head_filter_none.
    intros r Hr Hid. by apply (Habsent r).
  - intros o Hin Hs Hintime Hoffer. unfold orders.submitOrder. run.
    rewrite (findOne_by_id_elem _ _ Hpk Hin).
    rewrite decide_False by (intros Hne; by apply Hne).
    unfold db.expirationDate. rewrite Hs. simpl.
    unfold orders.after_deadline, db.date_gt, db.date_lt, db.minutes. simpl.
    replace (db.createdDate o + 10 * 60000 <? clock env (ticks w)) with false
      by (symmetry; apply Z.ltb_ge; lia).
    change (offers (set_ticks (S (ticks w)) w)) with (offers w).
    rewrite Hoffer. by eexists.
  - intros o offer Hin Hs Hintime Hoffer Htype Hform.
    unfold orders.submitOrder. run.
    rewrite (findOne_by_id_elem _ _ Hpk Hin).
    rewrite decide_False by (intros Hne; by apply Hne).
    unfold db.expirationDate. rewrite Hs. simpl.
    unfold orders.after_deadline, db.date_gt, db.date_lt, db.minutes. simpl.
    replace (db.createdDate o + 10 * 60000 <? clock env (ticks w)) with false
      by (symmetry; apply Z.ltb_ge; lia).
    change (offers (set_ticks (S (ticks w)) w)) with (offers w).
    rewrite Hoffer, Htype, Hform. by eexists.
Qed.

(** X3: when the payment request throws, the call throws too, but the order
    has already been saved as pending: the save comes before the payment,
    and no metric is emitted. *)
Theorem submitOrder_payment_refused (w : World) (o : db.Order)
    (offer : offerDb.Offer) (form : option string)
    (walletAddress appId : string) :
  primary_key (orders w) →
  o ∈ orders w →
  db.status o = db.opened →
  clock env (ticks w) ≤ db.createdDate o + 10 * 60 * 1000 →
  offerDb.findOne (offers w) (db.offerId o) = Some offer →
  offerDb.type offer = offerDb.earn →
  isValid env (offerDb.id offer) form = true →
  payTo env walletAddress appId (offerDb.amount offer) (db.id o) = false →
  ∃ w',
    orders.submitOrder env (db.id o) form walletAddress appId w
      = (Thrown PaymentError, w')
    ∧ db.findOne_by_id (orders w') (db.id o)
      = Some (db.setStatus db.pending (clock env (S (ticks w))) o)
    ∧ trace w'
      = trace w
        ++ [Saved (db.setStatus db.pending (clock env (S (ticks w))) o);
            Paid walletAddress appId (offerDb.amount offer) (db.id o)].
Proof.
  intros Hpk Hin Hs Hintime Hoffer Htype Hform Hpay.
  unfold orders.submitOrder. run.
  rewrite (findOne_by_id_elem _ _ Hpk Hin).
  rewrite decide_False by (intros Hne; by apply Hne).
  unfold db.expirationDate. rewrite Hs. simpl.
  unfold orders.after_deadline, db.date_gt, db.date_lt, db.minutes. simpl.
  replace (db.createdDate o + 10 * 60000 <? clock env (ticks w)) with false
    by (symmetry; apply Z.ltb_ge; lia).
  change (offers (set_ticks (S (ticks w)) w)) with (offers w).
  rewrite Hoffer, Htype, Hform. simpl.
  unfold orders.payment_payTo. simpl. rewrite Hpay.
  eexists. split; [reflexivity|]. simpl. split.
  - apply (findOne_by_id_save (orders w)
             (db.setStatus db.pending (clock env (S (ticks w))) o)).
  - by rewrite <- app_assoc.
Qed.

End submission_more.

Lemma submitOrder_accepted_witness :
  ∃ p w',
    orders.submitOrder example.env "T1" None "GWALLET" "app"
      (example.world [example.order "T1" "U1" db.opened 400000 None])
    = (Returned p, w')
    ∧ Order.status p = db.pending
    ∧ Order.completion_date p = 1000001
    ∧ db.findOne_by_id (orders w') "T1"
      = Some (example.order "T1" "U1" db.pending 400000 (Some 1000001))
    ∧ trace w'
      = [Saved (example.order "T1" "U1" db.pending 400000 (Some 1000001));
         Paid "GWALLET" "app" 10 "T1"; SubmitMetric offerDb.earn "O1"].
Proof.
  destruct (submitOrder_accepted example.env
              (example.world [example.order "T1" "U1" db.opened 400000 None])
              (example.order "T1" "U1" db.opened 400000 None)
              example.offer None "GWALLET" "app")
    as (p & w' & Hsubmit & _ & Hstatus & Hdate & _ & Hfind & Htrace & _).
  - apply NoDup_singleton.
  - apply list_elem_of_here.
  - reflexivity.
  - by vm_compute.
  - reflexivity.
  - by intros _.
  - by exists p, w'.
Defined.

Lemma submitOrder_refused_witness :
  orders.submitOrder scenario.env_invalid_form "T9" None "GWALLET" "app"
    (example.world [example.order "T1" "U1" db.opened 400000 None])
  = (Thrown (NoSuchOrder "T9"),
     example.world [example.order "T1" "U1" db.opened 400000 None])
  ∧ (∃ w', orders.submitOrder scenario.env_invalid_form "T1" None "GWALLET"
             "app"
             (scenario.world_without_offers
                [example.order "T1" "U1" db.opened 400000 None])
           = (Thrown (NoSuchOffer "O1"), w')
           ∧ orders w' = [example.order "T1" "U1" db.opened 400000 None]
           ∧ trace w' = [])
  ∧ (∃ w', orders.submitOrder scenario.env_invalid_form "T1" None "GWALLET"
             "app"
             (example.world [example.order "T1" "U1" db.opened 400000 None])
           = (Thrown (InvalidForm "T1"), w')
           ∧ orders w' = [example.order "T1" "U1" db.opened 400000 None]
           ∧ trace w' = []).
Proof.
  split; [|split].
  - apply (proj1 (submitOrder_refused scenario.env_invalid_form
                    (example.world
                       [example.order "T1" "U1" db.opened 400000 None])
                    None "GWALLET" "app" (NoDup_singleton _))).
    intros r ->%list_elem_of_singleton. done.
  - destruct (proj1 (proj2 (submitOrder_refused scenario.env_invalid_form
                    (scenario.world_without_offers
                       [example.order "T1" "U1" db.opened 400000 None])
                    None "GWALLET" "app" (NoDup_singleton _)))
                (example.order "T1" "U1" db.opened 400000 None))
      as (w' & Hsubmit & Horders & _ & Htrace).
    + apply list_elem_of_here.
    + reflexivity.
    + by vm_compute.
    + reflexivity.
    + exists w'. split; [exact Hsubmit|]. split; [exact Horders|exact Htrace].
  - destruct (proj2 (proj2 (submitOrder_refused scenario.env_invalid_form
                    (example.world
                       [example.order "T1" "U1" db.opened 400000 None])
                    None "GWALLET" "app" (NoDup_singleton _)))
                (example.order "T1" "U1" db.opened 400000 None) example.offer)
      as (w' & Hsubmit & Horders & _ & Htrace).
    + apply list_elem_of_here.
    + reflexivity.
    + by vm_compute.
    + reflexivity.
    + reflexivity.
    + reflexivity.
    + exists w'. split; [exact Hsubmit|]. split; [exact Horders|exact Htrace].
Defined.

Lemma submitOrder_payment_refused_witness :
  ∃ w',
    orders.submitOrder scenario.env_payment_down "T1" None "GWALLET" "app"
      (example.world [example.order "T1" "U1" db.opened 400000 None])
    = (Thrown PaymentError, w')
    ∧ db.findOne_by_id (orders w') "T1"
      = Some (example.order "T1" "U1" db.pending 400000 (Some 1000001))
    ∧ trace w'
      = [Saved (example.order "T1" "U1" db.pending 400000 (Some 1000001));
         Paid "GWALLET" "app" 10 "T1"].
Proof.
  apply (submitOrder_payment_refused scenario.env_payment_down
           (example.world [example.order "T1" "U1" db.opened 400000 None])
           (example.order "T1" "U1" db.opened 400000 None)
           example.offer None "GWALLET" "app").
  - apply NoDup_singleton.
  - apply list_elem_of_here.
  - reflexivity.
  - by vm_compute.
  - reflexivity.
  - reflexivity.
  - reflexivity.
  - reflexivity.
Defined.

(** ** Reads: what [getOrder] shows *)

Lemma primary_key_id rows a b :
  primary_key rows → a ∈ rows → b ∈ rows → db.id a = db.id b → a = b.
Proof.
  unfold primary_key. intros Hpk Ha Hb Hid.
  apply list_elem_of_lookup in Ha as [i Hi].
  apply list_elem_of_lookup in Hb as [j Hj].
  assert (i = j) as ->.
  { eapply NoDup_lookup; [exact Hpk| |].
    - rewrite list_lookup_fmap, Hi. simpl. by rewrite Hid.
    - by rewrite list_lookup_fmap, Hj. }
  congruence.
Qed.

Lemma getOne_Some cls rows i q o :
  db.getOne cls rows i q = Some o →
  o ∈ rows ∧ db.id o = i ∧ db.updateQueryWithStatus q o.
Proof.
  unfold db.getOne. intros Hhead%head_Some_elem_of.
  apply list_elem_of_filter in Hhead. tauto.
Qed.

(** X6: [getOne(orderId, status)] finds the row with that id when it has the
    status asked for, and [getOne(orderId, "!" + status)] finds it when it
    has not: of the two queries exactly one finds the row; without a
    status the row is found whatever its status; and a subclass finds no
    row of the other origin. *)
Theorem getOne_by_status (cls : option db.OrderOrigin) (rows : list db.Order)
    (o : db.Order) (s : db.OpenOrderStatus) :
  primary_key rows →
  o ∈ rows →
  (db.originFilter cls o →
     db.getOne cls rows (db.id o) None = Some o
     ∧ (db.status o = s →
        db.getOne cls rows (db.id o) (Some (db.Is s)) = Some o
        ∧ db.getOne cls rows (db.id o) (Some (db.IsNot s)) = None)
     ∧ (db.status o ≠ s →
        db.getOne cls rows (db.id o) (Some (db.Is s)) = None
        ∧ db.getOne cls rows (db.id o) (Some (db.IsNot s)) = Some o))
  ∧ (¬ db.originFilter cls o →
     ∀ q, db.getOne cls rows (db.id o) q = None).
Proof.
  intros Hpk Hin.
  assert (∀ q, db.updateQueryWithStatus q o → db.originFilter cls o →
               db.getOne cls rows (db.id o) q = Some o) as Hfound.
  { intros q Hq Hcls. unfold db.getOne.
    apply (head_filter_id _ rows o); [done|done|by intros r [? _]|done]. }
  assert (∀ q, ¬ (db.updateQueryWithStatus q o ∧ db.originFilter cls o) →
               db.getOne cls rows (db.id o) q = None) as Hmissed.
  { intros q Hq. unfold db.getOne. apply head_filter_none.
    intros r Hr (Hid & Hqr & Hclsr). apply Hq.
    assert (r = o) as -> by (by apply (primary_key_id rows)). done. }
  split.
  - intros Hcls. split; [by apply Hfound|]. split.
    + intros Hs. split; [by apply Hfound|]. apply Hmissed. simpl. tauto.
    + intros Hs. split; [|by apply Hfound]. apply Hmissed. simpl. tauto.
  - intros Hcls q. apply Hmissed. tauto.
Qed.

Lemma getOne_by_status_witness :
  let mine := example.order "T1" "U1" db.pending 0 (Some 5) in
  let rows := [mine; example.order "T2" "U1" db.opened 0 None] in
  db.getOne None rows "T1" (Some (db.IsNot db.opened)) = Some mine
  ∧ db.getOne None rows "T1" (Some (db.Is db.opened)) = None
  ∧ db.getOne (Some db.external) rows "T1" None = None.
Proof.
  intros mine rows.
  assert (primary_key rows) as Hpk.
  { unfold primary_key. simpl. apply NoDup_cons. split.
    - rewrite list_elem_of_singleton. done.
    - apply NoDup_singleton. }
  destruct (getOne_by_status None rows mine db.opened Hpk
              (list_elem_of_here _ _)) as [Hfound _].
  destruct (Hfound I) as (_ & _ & Hother).
  destruct (Hother ltac:(done)) as [Hopened Hnot_opened].
  destruct (getOne_by_status (Some db.external) rows mine db.opened Hpk
              (list_elem_of_here _ _)) as [_ Hmissed].
  split; [exact Hnot_opened|]. split; [exact Hopened|].
  apply (Hmissed ltac:(done) None).
Defined.

Section reads_more.

Variable env : Env.

(** X4: [getOrder] never shows an opened order: an id whose rows are all
    opened (or that no row has) gets the one error "no such order ... or
    order is open" and the world stays as it is; and whatever it returns
    is the projection of a row of the table with that id, whose status is
    not opened, and the table is left as it was. *)
Theorem getOrder_hides_opened (w : World) (orderId : string) :
  ((∀ r, r ∈ orders w → db.id r = orderId → db.status r = db.opened) →
     orders.getOrder env orderId w = (Thrown (NoSuchOrderOrOpen orderId), w))
  ∧ (∀ p w', orders.getOrder env orderId w = (Returned p, w') →
       Order.id p = orderId
       ∧ Order.status p ≠ db.opened
       ∧ orders w' = orders w
       ∧ ∃ o, o ∈ orders w ∧ db.id o = orderId ∧ db.status o ≠ db.opened).
Proof.
  split.
  - intros Hopened. unfold orders.getOrder. run.
    replace (db.getOne None (orders w) orderId (Some (db.IsNot db.opened)))
      with (@None db.Order); [done|].
    symmetry. unfold db.getOne. apply head_filter_none.
    intros r Hr (Hid & Hs & _). simpl in Hs. by apply Hs, Hopened.
  - intros p w'. unfold orders.getOrder. run.
    destruct (db.getOne None (orders w) orderId (Some (db.IsNot db.opened)))
      as [o|] eqn:Hone; [|done].
    apply getOne_Some in Hone as (Hin & Hid & Hs). simpl in Hs.
    destruct (checkIfTimedOut_spec env o w)
      as (o' & w1 & -> & Hrows & _ & _ & Hid' & _ & Hopen & _).
    destruct (orderDbToApi_returns o' w1 (Hopen Hs))
      as (p' & -> & Hpid & Hpst & _).
    intros [= <- <-]. split; [congruence|]. split; [rewrite Hpst; auto|].
    split; [done|]. by exists o.
Qed.

(** X5: an order that is completed or failed, or pending with its 45 seconds
    not yet over (the deadline itself included), is shown as it is
    stored: its status, and as completion date the date of its last
    status change (its creation date when it has none).  Nothing is
    written and no save is started. *)
Theorem getOrder_as_stored (w : World) (o : db.Order) :
  primary_key (orders w) →
  o ∈ orders w →
  db.status o ≠ db.opened →
  (db.status o = db.pending →
     ∃ d, db.currentStatusDate o = Some d
          ∧ clock env (ticks w) ≤ d + 45 * 1000) →
  ∃ p w',
    orders.getOrder env (db.id o) w = (Returned p, w')
    ∧ Order.id p = db.id o
    ∧ Order.status p = db.status o
    ∧ Order.completion_date p
      = default (db.createdDate o) (db.currentStatusDate o)
    ∧ same_store w w'
    ∧ (ticks w' ≤ S (ticks w))%nat.
Proof.
  intros Hpk Hin Hopen Hintime. unfold orders.getOrder. run.
  rewrite (getOne_elem _ _ (Some (db.IsNot db.opened)) Hpk Hin) by done.
  unfold orders.checkIfTimedOut.
  destruct (decide (db.status o = db.pending)) as [Hs|Hs]; run.
  - destruct (Hintime Hs) as (d & Hd & Hle).
    unfold db.expirationDate. rewrite Hs, Hd. simpl.
    unfold db.date_lt, db.seconds.
    replace (d + 45 * 1000 <? clock env (ticks w)) with false
      by (symmetry; apply Z.ltb_ge; lia).
    simpl.
    match goal with |- context [orders.orderDbToApi o ?w1] =>
      destruct (orderDbToApi_returns o w1 Hopen)
        as (p & -> & Hid & Hst & Hdate) end.
    eexists p, _. split; [reflexivity|]. simpl.
    split; [done|]. split; [congruence|]. split; [by rewrite Hdate, Hd|].
    split; [done|lia].
  - destruct (orderDbToApi_returns o w Hopen)
      as (p & -> & Hid & Hst & Hdate).
    exists p, w. repeat (split; [done|]). lia.
Qed.

End reads_more.

Lemma getOrder_hides_opened_witness :
  orders.getOrder example.env "T1"
    (example.world [example.order "T1" "U1" db.opened 0 None])
  = (Thrown (NoSuchOrderOrOpen "T1"),
     example.world [example.order "T1" "U1" db.opened 0 None])
  ∧ (∀ p w',
       orders.getOrder example.env "T2"
         (example.world [example.order "T1" "U1" db.opened 0 None;
                         example.order "T2" "U1" db.completed 0 (Some 7)])
       = (Returned p, w') →
       Order.id p = "T2" ∧ Order.status p ≠ db.opened).
Proof.
  split.
  - apply (proj1 (getOrder_hides_opened example.env
                    (example.world [example.order "T1" "U1" db.opened 0 None])
                    "T1")).
    by intros r ->%list_elem_of_singleton _.
  - intros p w' Hget.
    destruct (proj2 (getOrder_hides_opened example.env
                (example.world [example.order "T1" "U1" db.opened 0 None;
                                example.order "T2" "U1" db.completed 0 (Some 7)])
                "T2") p w' Hget) as (Hid & Hs & _).
    by split.
Defined.

Lemma getOrder_as_stored_witness :
  ∃ p w',
    orders.getOrder example.env "T1"
      (example.world [example.order "T1" "U1" db.pending 0 (Some 955000)])
    = (Returned p, w')
    ∧ Order.status p = db.pending
    ∧ Order.completion_date p = 955000
    ∧ orders w' = [example.order "T1" "U1" db.pending 0 (Some 955000)]
    ∧ background w' = [].
Proof.
  destruct (getOrder_as_stored example.env
              (example.world
                 [example.order "T1" "U1" db.pending 0 (Some 955000)])
              (example.order "T1" "U1" db.pending 0 (Some 955000)))
    as (p & w' & Hget & _ & Hs & Hdate & (Hrows & Hbg & _) & _).
  - apply NoDup_singleton.
  - apply list_elem_of_here.
  - done.
  - intros _. exists 955000. split; [reflexivity|]. by vm_compute.
  - exists p, w'. by repeat split.
Defined.

(** ** Creation: asking twice, cancelling, and what the table keeps *)

Lemma filter_save_single (P : db.Order → Prop) `{∀ o, Decision (P o)}
    (o : db.Order) (rows : list db.Order) :
  filter P rows = [] → P o → filter P (db.save o rows) = [o].
Proof.
  intros Hnone HP. induction rows as [|r rows IH]; simpl.
  - rewrite filter_cons, decide_True by done. done.
  - rewrite filter_cons in Hnone.
    destruct (decide (P r)) as [|HPr]; [done|].
    destruct (decide (db.id r = db.id o)).
    + rewrite filter_cons, decide_True by done. by rewrite Hnone.
    + rewrite filter_cons, decide_False by done. by apply IH.
Qed.

Lemma findOne_opened_save rows o user offer :
  db.findOne_opened rows user offer = None →
  db.userId o = user → db.offerId o = offer → db.status o = db.opened →
  db.findOne_opened (db.save o rows) user offer = Some o.
Proof.
  unfold db.findOne_opened. intros Hnone%head_None Hu Ho Hs.
  by rewrite filter_save_single.
Qed.

Lemma elem_of_save_other o r rows :
  o ∈ rows → db.id r ≠ db.id o → o ∈ db.save r rows.
Proof.
  intros Hin Hne. induction rows as [|x rows IH]; simpl;
    [by apply elem_of_nil in Hin|].
  apply elem_of_cons in Hin as [<-|Hin].
  - rewrite decide_False by done. apply list_elem_of_here.
  - destruct (decide (db.id x = db.id r)).
    + by apply list_elem_of_further.
    + by apply list_elem_of_further, IH.
Qed.

Lemma remove_fresh o rows :
  db.id o ∉ (db.id <$> rows) → db.remove o (rows ++ [o]) = rows.
Proof.
  intros Hfresh. unfold db.remove.
  rewrite filter_app, filter_cons, filter_nil.
  rewrite decide_False by (intros Hne; by apply Hne).
  rewrite app_nil_r.
  induction rows as [|r rows IH]; [done|].
  simpl in Hfresh. apply not_elem_of_cons in Hfresh as [Hne Hfresh].
  rewrite filter_cons, decide_True by done. by rewrite IH.
Qed.

Lemma count_user_offer_save_le rows o user offer :
  db.count_user_offer (db.save o rows) user offer
  ≤ db.count_user_offer rows user offer
    + (if decide (db.userId o = user ∧ db.offerId o = offer) then 1 else 0).
Proof.
  unfold db.count_user_offer.
  pose proof (length_filter_save
                (λ r, db.userId r = user ∧ db.offerId r = offer) o rows)
    as Hle.
  destruct (decide (db.userId o = user ∧ db.offerId o = offer)); lia.
Qed.

Lemma one_write_primary_key w w' :
  one_write w w' → primary_key (orders w) → primary_key (orders w').
Proof.
  intros (_ & _ & Hrows) Hpk.
  destruct Hrows as [->|[(o & -> & _)|[(o & -> & _)|(o & ->)]]].
  - done.
  - by apply save_primary_key.
  - by apply save_primary_key.
  - by apply remove_primary_key.
Qed.

Section creation_more.

Variable env : Env.

(** X7: asking twice for the same marketplace order is asking once: the
    second call returns the id and the deadline the first one returned,
    and writes nothing. *)
Theorem createMarketplaceOrder_twice (offerId userId : string) (w w1 : World)
    (opened : OpenOrder.t) :
  orders.createMarketplaceOrder env offerId userId w = (Returned opened, w1) →
  orders.createMarketplaceOrder env offerId userId w1 = (Returned opened, w1).
Proof.
  intros Hfirst.
  destruct (createMarketplaceOrder_cases env offerId userId w)
    as [[_ Hc]|[(? & ? & _ & _ & Hc)|[(? & _ & _ & _ & Hc)
        |(offer & order & w' & Hoffer & Hopen & _ & _ & Hc & Hrows & Hoffers
          & _ & _ & _ & _ & _ & Hs & Hu & Ho & _)]]];
    rewrite Hc in Hfirst; try done.
  - by injection Hfirst as <- <-.
  - injection Hfirst as <- <-.
    unfold orders.createMarketplaceOrder. run.
    rewrite Hoffers, Hoffer, Hrows.
    rewrite (findOne_opened_save (orders w) order userId offerId) by done.
    simpl. by apply toOpenOrder_opened.
Qed.

(** X8: [createExternalOrder] with a JWT that does not validate throws before
    it reads or writes; with a valid one, asking twice is asking once. *)
Theorem createExternalOrder_twice (jwt userId : string) (w : World) :
  (validateSpendJWT env jwt = None →
     orders.createExternalOrder env jwt userId w = (Thrown InvalidJWT, w))
  ∧ (∀ opened w1,
       orders.createExternalOrder env jwt userId w = (Returned opened, w1) →
       orders.createExternalOrder env jwt userId w1 = (Returned opened, w1)).
Proof.
  split.
  - intros Hjwt. unfold orders.createExternalOrder. by rewrite Hjwt.
  - intros opened w1. unfold orders.createExternalOrder.
    destruct (validateSpendJWT env jwt) as [offer|]; [|done]. run.
    destruct (db.findOne_opened (orders w) userId (jwt_offer_id offer))
      as [existing|] eqn:Hopen; simpl.
    + intros Hfirst. pose proof (toOpenOrder_pure _ _ _ _ Hfirst) as ->.
      by rewrite Hopen.
    + unfold orders.new. simpl.
      match goal with |- orders.toOpenOrder ?o ?w2 = _ → _ =>
        rewrite (toOpenOrder_opened o w2) by done end.
      intros [= <- <-]. simpl.
      erewrite findOne_opened_save; [|exact Hopen|done..].
      simpl. by apply toOpenOrder_opened.
Qed.

(** X9: cancelling a marketplace order that was just created, under an id
    that no row had, gives back the table as it was before the creation
    (so the order no longer counts towards the caps). *)
Theorem createMarketplaceOrder_cancelOrder (offerId userId : string)
    (w w1 : World) (opened : OpenOrder.t) :
  primary_key (orders w) →
  generateId env (drawn w) ∉ (db.id <$> orders w) →
  db.findOne_opened (orders w) userId offerId = None →
  orders.createMarketplaceOrder env offerId userId w = (Returned opened, w1) →
  ∃ w2,
    orders.cancelOrder (OpenOrder.id opened) w1 = (Returned (), w2)
    ∧ orders w2 = orders w
    ∧ offers w2 = offers w
    ∧ trace w2 = trace w1 ++ [Removed (OpenOrder.id opened)].
Proof.
  intros Hpk Hfresh Hnone Hfirst.
  destruct (createMarketplaceOrder_cases env offerId userId w)
    as [[_ Hc]|[(? & ? & _ & Hopen & _)|[(? & _ & _ & _ & Hc)
        |(offer & order & w' & Hoffer & Hopen & _ & _ & Hc & Hrows & Hoffers
          & _ & _ & Hid & _ & _ & Hs & _)]]];
    try (rewrite Hc in Hfirst); try done; [congruence|].
  injection Hfirst as <- <-. simpl.
  rewrite <- Hid in Hfresh.
  unfold orders.cancelOrder. run. rewrite Hrows.
  rewrite (getOne_elem (db.save order (orders w)) order (Some (db.Is db.opened)));
    [|by apply save_primary_key|apply elem_of_save|done].
  simpl. eexists. split; [reflexivity|]. simpl.
  split; [|done].
  rewrite Hrows, save_ids_fresh by done. by apply remove_fresh.
Qed.

Lemma serve_primary_key r w :
  primary_key (orders w) → primary_key (orders (serve env r w)).
Proof.
  intros Hpk. destruct r; simpl;
    try (eapply one_write_primary_key; [|exact Hpk]; auto with writes).
  by apply foldl_save_primary_key.
Qed.

(** X10: whatever requests are served, and whenever the writes in flight
    complete, no two rows of the table get the same id: every write is an
    upsert by id or a removal. *)
Theorem serve_all_primary_key (requests : list Request) (w : World) :
  primary_key (orders w) →
  primary_key (orders (serve_all env requests w)).
Proof.
  unfold serve_all. revert w.
  induction requests as [|r requests IH]; intros w Hpk; [done|].
  simpl. by apply IH, serve_primary_key.
Qed.

Lemma getOrder_orders orderId w :
  orders (snd (orders.getOrder env orderId w)) = orders w.
Proof.
  unfold orders.getOrder. run.
  destruct (db.getOne _ _ _ _) as [o|]; simpl; [|done].
  destruct (checkIfTimedOut_spec env o w) as (o' & w1 & -> & Hrows & _).
  destruct (orders.orderDbToApi o' w1) as [r w'] eqn:Hp.
  apply orderDbToApi_pure in Hp as [-> _]. by destruct r.
Qed.

Lemma getOrderHistory_orders userId limit before after w :
  orders (snd (orders.getOrderHistory env userId limit before after w))
  = orders w.
Proof.
  unfold orders.getOrderHistory. run.
  set (found := db.getAll _ _ _ _ _ _).
  destruct (project_all_spec env found w) as (ps & w' & -> & Hrows & _).
  { apply Forall_forall. intros o Ho.
    by apply getAll_elem in Ho as (_ & _ & Hq). }
  done.
Qed.

Lemma submitOrder_writes orderId form walletAddress appId w :
  let w' := snd (orders.submitOrder env orderId form walletAddress appId w) in
  orders w' = orders w
  ∨ ∃ found now,
      db.findOne_by_id (orders w) orderId = Some found
      ∧ db.status found = db.opened
      ∧ orders w' = db.save (db.setStatus db.pending now found) (orders w).
Proof.
  simpl. unfold orders.submitOrder. run.
  destruct (db.findOne_by_id (orders w) orderId) as [o|] eqn:Hfind;
    [|by left].
  destruct (decide (db.status o ≠ db.opened)) as [Hs|Hs].
  { destruct (orders.orderDbToApi o w) as [r w'] eqn:Hp.
    apply orderDbToApi_pure in Hp as [-> _]. by left. }
  assert (db.status o = db.opened) as Hopened
    by (by apply dec_stable).
  run. destruct (orders.after_deadline _ _); simpl; [by left|].
  destruct (offerDb.findOne _ _) as [offer|]; simpl; [|by left].
  destruct (offerDb.type offer); simpl.
  - destruct (isValid env _ _); simpl; [|by left].
    unfold orders.payment_payTo. simpl. destruct (payTo env _ _ _ _); simpl;
      right; by exists o, (clock env (S (ticks w))).
  - right. by exists o, (clock env (S (ticks w))).
Qed.

(** X11: no request changes or removes a completed or failed order: it is
    still in the table, as it was, after any one request is served
    (the id generator not handing out its id again, and no write in
    flight being for its id). *)
Theorem closed_order_stays (r : Request) (w : World) (o : db.Order) :
  primary_key (orders w) →
  o ∈ orders w →
  db.status o = db.completed ∨ db.status o = db.failed →
  generateId env (drawn w) ≠ db.id o →
  (∀ b, b ∈ background w → db.id b ≠ db.id o) →
  o ∈ orders (serve env r w).
Proof.
  intros Hpk Hin Hclosed Hfresh Hbg.
  assert (db.status o ≠ db.opened) as Hnot_opened
    by (destruct Hclosed as [-> | ->]; done).
  destruct r as [orderId|offerId userId|jwt userId
                 |orderId form walletAddress appId|orderId
                 |userId limit before after|]; simpl.
  - by rewrite getOrder_orders.
  - destruct (createMarketplaceOrder_cases env offerId userId w)
      as [[_ ->]|[(? & ? & _ & _ & ->)|[(? & _ & _ & _ & ->)
          |(offer & order & w' & _ & _ & _ & _ & -> & Hrows & _ & _ & _ & Hid
            & _)]]]; simpl; try done.
    rewrite Hrows. apply elem_of_save_other; [done|]. by rewrite Hid.
  - unfold orders.createExternalOrder.
    destruct (validateSpendJWT env jwt) as [offer|]; [|done]. run.
    destruct (db.findOne_opened _ _ _) as [existing|]; simpl.
    + destruct (orders.toOpenOrder existing w) as [res w'] eqn:Hr.
      by apply toOpenOrder_pure in Hr as ->.
    + unfold orders.new. simpl. by apply elem_of_save_other.
  - destruct (submitOrder_writes orderId form walletAddress appId w)
      as [->|(found & now & Hfind & Hs & ->)]; [done|].
    apply elem_of_save_other; [done|]. simpl. intros Hid.
    apply findOne_by_id_Some in Hfind as [Hfound _].
    by rewrite (primary_key_id _ _ _ Hpk Hfound Hin Hid) in Hs.
  - unfold orders.cancelOrder. run.
    destruct (db.getOne None (orders w) orderId (Some (db.Is db.opened)))
      as [order|] eqn:Hone; simpl; [|done].
    apply getOne_Some in Hone as (Horder & _ & Hs). simpl in Hs.
    unfold db.remove. apply list_elem_of_filter. split; [|done].
    intros Hid. symmetry in Hid.
    by rewrite (primary_key_id _ _ _ Hpk Horder Hin Hid) in Hs.
  - by rewrite getOrderHistory_orders.
  - unfold settle. simpl. revert Hin Hbg. generalize (orders w) as rows.
    induction (background w) as [|b flips IH]; intros rows Hin Hbg; [done|].
    simpl. apply IH.
    + apply elem_of_save_other; [done|]. apply Hbg, list_elem_of_here.
    + intros b' Hb'. by apply Hbg, list_elem_of_further.
Qed.

Lemma createMarketplaceOrder_within_user_cap offerId userId w :
  within_user_cap w →
  within_user_cap (snd (orders.createMarketplaceOrder env offerId userId w)).
Proof.
  intros Hcap.
  destruct (createMarketplaceOrder_cases env offerId userId w)
    as [[_ ->]|[(? & ? & _ & _ & ->)|[(? & _ & _ & _ & ->)
        |(offer & order & w' & Hoffer & _ & _ & Huser & -> & Hrows & Hoffers
          & _ & _ & _ & _ & _ & _ & Hu & Ho & _)]]]; simpl; try done.
  intros offerId' offer' userId' Hoffer'. rewrite Hoffers in Hoffer'.
  rewrite Hrows. specialize (Hcap offerId' offer' userId' Hoffer').
  pose proof (count_user_offer_save_le (orders w) order userId' offerId')
    as Hle.
  destruct (decide (db.userId order = userId' ∧ db.offerId order = offerId'))
    as [[Heq1 Heq2]|Hne]; [|lia].
  rewrite Hu in Heq1. rewrite Ho in Heq2. subst userId' offerId'.
  assert (offer' = offer) as -> by congruence. lia.
Qed.

(** X12: marketplace orders created one after the other, each call running to
    its end before the next starts, never take an offer past its total
    cap nor a user past the per-user cap, when the table starts within
    both. *)
Theorem createInTurn_within_caps (calls : list (string * string))
    (w : World) :
  within_cap w → within_user_cap w →
  within_cap (createInTurn env calls w)
  ∧ within_user_cap (createInTurn env calls w).
Proof.
  unfold createInTurn. revert w.
  induction calls as [|[offerId userId] calls IH]; intros w Hcap Huser;
    [done|].
  simpl. apply IH.
  - by apply createMarketplaceOrder_within_cap.
  - by apply createMarketplaceOrder_within_user_cap.
Qed.

End creation_more.

Lemma createMarketplaceOrder_twice_witness :
  let first :=
    orders.createMarketplaceOrder example.env "O1" "U1" (example.world []) in
  first.1 = Returned {| OpenOrder.id := "T0";
                        OpenOrder.expiration_date := 1600000 |}
  ∧ orders first.2 = [example.order "T0" "U1" db.opened 1000000 None]
  ∧ orders.createMarketplaceOrder example.env "O1" "U1" first.2
    = (Returned {| OpenOrder.id := "T0";
                   OpenOrder.expiration_date := 1600000 |}, first.2).
Proof.
  intros first. split; [reflexivity|]. split; [reflexivity|].
  apply (createMarketplaceOrder_twice example.env "O1" "U1"
           (example.world [])).
  reflexivity.
Defined.

Lemma createExternalOrder_twice_witness :
  orders.createExternalOrder example.env "forged.jwt" "U1" (example.world [])
  = (Thrown InvalidJWT, example.world [])
  ∧ (let first :=
       orders.createExternalOrder example.env "spend.jwt" "U1"
         (example.world []) in
     orders.createExternalOrder example.env "spend.jwt" "U1" first.2
     = (Returned {| OpenOrder.id := "T0";
                    OpenOrder.expiration_date := 1600000 |}, first.2)).
Proof.
  split.
  - by apply (proj1 (createExternalOrder_twice example.env "forged.jwt" "U1"
                       (example.world []))).
  - intros first.
    by apply (proj2 (createExternalOrder_twice example.env "spend.jwt" "U1"
                       (example.world []))).
Defined.

Lemma createMarketplaceOrder_cancelOrder_witness :
  let w := scenario.world [example.order "T7" "U2" db.completed 0 (Some 5)] in
  let first := orders.createMarketplaceOrder example.env "O1" "U1" w in
  ∃ w2,
    orders.cancelOrder "T0" first.2 = (Returned (), w2)
    ∧ orders w2 = [example.order "T7" "U2" db.completed 0 (Some 5)].
Proof.
  intros w first.
  destruct (createMarketplaceOrder_cancelOrder example.env "O1" "U1" w
              first.2
              {| OpenOrder.id := "T0"; OpenOrder.expiration_date := 1600000 |})
    as (w2 & Hcancel & Hrows & _).
  - apply NoDup_singleton.
  - simpl. rewrite list_elem_of_singleton. done.
  - reflexivity.
  - reflexivity.
  - by exists w2.
Defined.

Lemma serve_all_primary_key_witness :
  primary_key
    (orders
       (serve_all example.env
          [CreateMarketplaceOrder "O1" "U1";
           SubmitOrder "T0" None "GWALLET" "app";
           CreateMarketplaceOrder "O1" "U2"; CancelOrder "T1";
           CreateExternalOrder "spend.jwt" "U1"; GetOrder "T0";
           WritesComplete]
          (scenario.world
             [example.order "T7" "U2" db.pending 0 (Some 5)]))).
Proof.
  apply (serve_all_primary_key example.env). apply NoDup_singleton.
Defined.

Lemma closed_order_stays_witness :
  example.order "T7" "U2" db.completed 0 (Some 5)
  ∈ orders
      (serve example.env (CancelOrder "T7")
         (scenario.world
            [example.order "T7" "U2" db.completed 0 (Some 5);
             example.order "T8" "U2" db.opened 0 None]))
  ∧ example.order "T7" "U2" db.completed 0 (Some 5)
    ∈ orders
        (serve example.env (CreateMarketplaceOrder "O1" "U1")
           (scenario.world
              [example.order "T7" "U2" db.completed 0 (Some 5);
               example.order "T8" "U2" db.opened 0 None])).
Proof.
  assert (primary_key [example.order "T7" "U2" db.completed 0 (Some 5);
                       example.order "T8" "U2" db.opened 0 None]) as Hpk.
  { unfold primary_key. simpl. apply NoDup_cons. split.
    - rewrite list_elem_of_singleton. done.
    - apply NoDup_singleton. }
  split.
  - apply (closed_order_stays example.env (CancelOrder "T7")).
    + exact Hpk.
    + apply list_elem_of_here.
    + by left.
    + done.
    + by intros b ?%elem_of_nil.
  - apply (closed_order_stays example.env (CreateMarketplaceOrder "O1" "U1")).
    + exact Hpk.
    + apply list_elem_of_here.
    + by left.
    + done.
    + by intros b ?%elem_of_nil.
Defined.

Lemma createInTurn_within_caps_witness :
  let w :=
    createInTurn example.env
      [("O1", "U1"); ("O1", "U2"); ("O1", "U3"); ("O1", "U4"); ("O1", "U1")]
      (scenario.world []) in
  db.count_offer (orders w) "O1" ≤ 3
  ∧ db.count_user_offer (orders w) "U1" "O1" ≤ 2.
Proof.
  intros w.
  assert (∀ offerId offer,
            offerDb.findOne [scenario.offer] offerId = Some offer →
            offerId = "O1" ∧ offer = scenario.offer) as Hone.
  { intros offerId offer. unfold offerDb.findOne.
    rewrite filter_cons, filter_nil. destruct (decide _) as [<-|]; [|done].
    by intros [= <-]. }
  destruct (createInTurn_within_caps example.env
              [("O1", "U1"); ("O1", "U2"); ("O1", "U3"); ("O1", "U4");
               ("O1", "U1")]
              (scenario.world [])) as [Htotal Huser].
  - intros offerId offer [-> ->]%Hone. done.
  - intros offerId offer userId [-> ->]%Hone. done.
  - split.
    + apply (Htotal "O1" scenario.offer). reflexivity.
    + apply (Huser "O1" scenario.offer "U1"). reflexivity.
Defined.

(** ** The rate limiter: keys read, and checks that add up *)

Section rate_limit_more.
Local Open Scope Q_scope.

Variable toString : Q → string.










End rate_limit_more.



(** * The helpers of utils *)

Lemma string_app_cons (c : ascii) (s1 s2 : string) :
  String c s1 +:+ s2 = String c (s1 +:+ s2).
Proof. reflexivity. Qed.

Lemma string_app_nil_l (s : string) : EmptyString +:+ s = s.
Proof. reflexivity. Qed.

Lemma string_app_assoc (s1 s2 s3 : string) :
  (s1 +:+ s2) +:+ s3 = s1 +:+ (s2 +:+ s3).
Proof.
  induction s1 as [|c s1 IH]; [done|]. by rewrite !string_app_cons, IH.
Qed.

Lemma string_app_length (s1 s2 : string) :
  String.length (s1 +:+ s2) = (String.length s1 + String.length s2)%nat.
Proof.
  induction s1 as [|c s1 IH]; [done|]. rewrite string_app_cons. simpl.
  by rewrite IH.
Qed.

Lemma string_app_nil_r (s : string) : s +:+ EmptyString = s.
Proof.
  induction s as [|c s IH]; [done|]. by rewrite string_app_cons, IH.
Qed.

(** ** Identifiers *)

Lemma string_get_Some (s : string) (n : nat) :
  (n < String.length s)%nat → is_Some (String.get n s).
Proof.
  revert n. induction s as [|c s IH]; intros n; simpl; [lia|].
  destruct n as [|n]; [by eexists|]. intros Hn. apply IH. lia.
Qed.

(** Every byte picks a character of [ID_CHARS]: [int / 256 * 62] stays
    below 62. *)
Lemma appendIdChar_in_range (str : string) (int : Byte.byte) :
  ∃ c j, utils.appendIdChar str int = str +:+ String c EmptyString
         ∧ String.get j utils.ID_CHARS = Some c.
Proof.
  unfold utils.appendIdChar.
  pose proof (Byte.to_N_bounded int) as Hbyte.
  set (index := Z.of_N (Byte.to_N int)
                * Z.of_nat (String.length utils.ID_CHARS) / 256).
  assert (0 ≤ index < 62) as Hindex.
  { unfold index. change (Z.of_nat (String.length utils.ID_CHARS)) with 62.
    split.
    - apply Z.div_pos; lia.
    - apply Z.div_lt_upper_bound; lia. }
  destruct (string_get_Some utils.ID_CHARS (Z.to_nat index)) as [c Hc].
  { change (String.length utils.ID_CHARS) with 62%nat. lia. }
  exists c, (Z.to_nat index). by rewrite Hc.
Qed.

Lemma foldl_appendIdChar (randomInts : list Byte.byte) (str : string) :
  ∃ suffix,
    foldl utils.appendIdChar str randomInts = str +:+ suffix
    ∧ String.length suffix = length randomInts
    ∧ ∀ i c, String.get i suffix = Some c →
             ∃ j, String.get j utils.ID_CHARS = Some c.
Proof.
  revert str. induction randomInts as [|int randomInts IH]; intros str.
  - exists EmptyString. simpl. by rewrite string_app_nil_r.
  - destruct (appendIdChar_in_range str int) as (c & j & Happend & Hc).
    destruct (IH (utils.appendIdChar str int)) as (suffix & Hfold & Hlen & Hin).
    exists (String c suffix). simpl. rewrite Hfold, Happend.
    split; [by rewrite string_app_assoc, string_app_cons, string_app_nil_l|].
    split; [by rewrite Hlen|].
    intros [|i] c'; simpl; [intros [= <-]; by exists j|apply Hin].
Qed.

Section identifiers.

Variable randomLength : Z.
Variable randomFillSync : nat → Byte.byte.

Lemma string_or_prefix (prefix : string) :
  utils.string_or (Some prefix) EmptyString = prefix.
Proof. by destruct prefix. Qed.

(** What [generateRandomString] returns once the length is settled. *)
Lemma generateRandomString_Done options (n : Z) :
  Z.max
    (match GenerateRandomStringOptions.length options with
     | Some l =>
         if decide (l = 0)
         then utils.number_or (GenerateRandomStringOptions.baseLength options)
                randomLength
         else l - Z.of_nat
                    (String.length
                       (utils.string_or
                          (GenerateRandomStringOptions.prefix options)
                          EmptyString))
     | None =>
         utils.number_or (GenerateRandomStringOptions.baseLength options)
           randomLength
     end)
    (utils.number_or (GenerateRandomStringOptions.minLength options) 0) = n →
  0 < n →
  ∃ suffix,
    utils.generateRandomString randomLength randomFillSync options
    = utils.Done
        (utils.string_or (GenerateRandomStringOptions.prefix options)
           EmptyString +:+ suffix)
    ∧ String.length suffix = Z.to_nat n
    ∧ ∀ i c, String.get i suffix = Some c →
             ∃ j, String.get j utils.ID_CHARS = Some c.
Proof.
  intros Hn Hpos. unfold utils.generateRandomString. rewrite Hn.
  rewrite decide_False by lia.
  destruct (foldl_appendIdChar (randomFillSync <$> seq 0 (Z.to_nat n))
              EmptyString) as (suffix & Hfold & Hlen & Hin).
  exists suffix. rewrite Hfold, string_app_nil_l.
  split; [done|]. split; [|done].
  by rewrite Hlen, length_fmap, length_seq.
Qed.

(** X15: an id is the prefix followed by exactly 20 characters, each one of
    the 62 of [ID_CHARS], whatever bytes the random source gives; the
    call never throws and no index falls outside [ID_CHARS]. *)
Theorem generateId_shape (prefix : string) :
  ∃ suffix,
    utils.generateId randomLength randomFillSync prefix
    = utils.Done (prefix +:+ suffix)
    ∧ String.length suffix = 20%nat
    ∧ String.length (prefix +:+ suffix) = (String.length prefix + 20)%nat
    ∧ ∀ i c, String.get i suffix = Some c →
             ∃ j, String.get j utils.ID_CHARS = Some c.
Proof.
  unfold utils.generateId.
  destruct (generateRandomString_Done
              {| GenerateRandomStringOptions.prefix := Some prefix;
                 GenerateRandomStringOptions.minLength := None;
                 GenerateRandomStringOptions.baseLength := Some utils.ID_LENGTH;
                 GenerateRandomStringOptions.length := None |} 20)
    as (suffix & Hdone & Hlen & Hin); [done|done|].
  cbn [GenerateRandomStringOptions.prefix] in Hdone.
  rewrite string_or_prefix in Hdone.
  exists suffix. split; [exact Hdone|]. split; [exact Hlen|].
  split; [|exact Hin]. by rewrite string_app_length, Hlen.
Qed.

(** X16: with [length] given (and not 0), the string as a whole, prefix
    included, has that length, whatever [baseLength] says, as long as
    [minLength] asks for no more; a [length] that leaves no room after
    the prefix throws; and a larger [minLength] wins over [length]: the
    random part then has [minLength] characters. *)
Theorem generateRandomString_length (options : GenerateRandomStringOptions.t)
    (l : Z) :
  GenerateRandomStringOptions.length options = Some l →
  l ≠ 0 →
  let prefix :=
    utils.string_or (GenerateRandomStringOptions.prefix options)
      EmptyString in
  let minLength :=
    utils.number_or (GenerateRandomStringOptions.minLength options) 0 in
  (Z.of_nat (String.length prefix) < l →
   minLength ≤ l - Z.of_nat (String.length prefix) →
   ∃ suffix,
     utils.generateRandomString randomLength randomFillSync options
     = utils.Done (prefix +:+ suffix)
     ∧ Z.of_nat (String.length (prefix +:+ suffix)) = l)
  ∧ (l ≤ Z.of_nat (String.length prefix) → minLength ≤ 0 →
     utils.generateRandomString randomLength randomFillSync options
     = utils.Raised
         "Requested Length can't be equal or less than prefix length or 0")
  ∧ (0 < minLength → l - Z.of_nat (String.length prefix) ≤ minLength →
     ∃ suffix,
       utils.generateRandomString randomLength randomFillSync options
       = utils.Done (prefix +:+ suffix)
       ∧ Z.of_nat (String.length suffix) = minLength).
Proof.
  intros Hl Hl0 prefix minLength. split; [|split].
  - intros Hroom Hmin.
    destruct (generateRandomString_Done options
                (l - Z.of_nat (String.length prefix)))
      as (suffix & Hdone & Hlen & _).
    { rewrite Hl, decide_False by done. fold prefix minLength. lia. }
    { lia. }
    exists suffix. split; [exact Hdone|].
    rewrite string_app_length, Hlen. lia.
  - intros Hroom Hmin. unfold utils.generateRandomString. cbv zeta.
    rewrite Hl, (decide_False (P := l = 0)) by done. fold prefix minLength.
    by rewrite decide_True by lia.
  - intros Hmin Hle.
    destruct (generateRandomString_Done options minLength)
      as (suffix & Hdone & Hlen & _).
    { rewrite Hl, decide_False by done. fold prefix minLength. lia. }
    { lia. }
    exists suffix. split; [exact Hdone|]. rewrite Hlen. lia.
Qed.

End identifiers.

Lemma generateId_shape_witness :
  ∃ suffix,
    utils.generateId 0 scenario.randomFillSync "T" = utils.Done ("T" +:+ suffix)
    ∧ String.length suffix = 20%nat
    ∧ String.get 1 suffix = Some "9"%char.
Proof.
  destruct (generateId_shape 0 scenario.randomFillSync "T")
    as (suffix & Hid & Hlen & _).
  exists suffix. split; [exact Hid|]. split; [exact Hlen|].
  assert (utils.generateId 0 scenario.randomFillSync "T"
          = utils.Done "T19hqzIR10irAJS2ajsBK") as Hrun by (by vm_compute).
  rewrite Hrun in Hid. injection Hid as Hid.
  rewrite string_app_nil_l in Hid. by rewrite <- Hid.
Defined.

Lemma generateRandomString_length_witness :
  (∃ suffix,
     utils.generateRandomString 55 scenario.randomFillSync
       {| GenerateRandomStringOptions.prefix := Some "app-";
          GenerateRandomStringOptions.minLength := None;
          GenerateRandomStringOptions.baseLength := Some 30;
          GenerateRandomStringOptions.length := Some 12 |}
     = utils.Done ("app-" +:+ suffix)
     ∧ Z.of_nat (String.length ("app-" +:+ suffix)) = 12)
  ∧ utils.generateRandomString 55 scenario.randomFillSync
      {| GenerateRandomStringOptions.prefix := Some "app-";
         GenerateRandomStringOptions.minLength := None;
         GenerateRandomStringOptions.baseLength := Some 30;
         GenerateRandomStringOptions.length := Some 4 |}
    = utils.Raised
        "Requested Length can't be equal or less than prefix length or 0"
  ∧ (∃ suffix,
       utils.generateRandomString 55 scenario.randomFillSync
         {| GenerateRandomStringOptions.prefix := Some "app-";
            GenerateRandomStringOptions.minLength := Some 10;
            GenerateRandomStringOptions.baseLength := None;
            GenerateRandomStringOptions.length := Some 12 |}
       = utils.Done ("app-" +:+ suffix)
       ∧ Z.of_nat (String.length suffix) = 10).
Proof.
  split; [|split].
  - apply (proj1 (generateRandomString_length 55 scenario.randomFillSync
                    {| GenerateRandomStringOptions.prefix := Some "app-";
                       GenerateRandomStringOptions.minLength := None;
                       GenerateRandomStringOptions.baseLength := Some 30;
                       GenerateRandomStringOptions.length := Some 12 |}
                    12 eq_refl ltac:(done))); by vm_compute.
  - apply (proj1 (proj2 (generateRandomString_length 55
                    scenario.randomFillSync
                    {| GenerateRandomStringOptions.prefix := Some "app-";
                       GenerateRandomStringOptions.minLength := None;
                       GenerateRandomStringOptions.baseLength := Some 30;
                       GenerateRandomStringOptions.length := Some 4 |}
                    4 eq_refl ltac:(done)))); by vm_compute.
  - apply (proj2 (proj2 (generateRandomString_length 55
                    scenario.randomFillSync
                    {| GenerateRandomStringOptions.prefix := Some "app-";
                       GenerateRandomStringOptions.minLength := Some 10;
                       GenerateRandomStringOptions.baseLength := None;
                       GenerateRandomStringOptions.length := Some 12 |}
                    12 eq_refl ltac:(done)))); by vm_compute.
Defined.

(** ** Memos *)

Lemma split_no_separator (separator : ascii) (s : string) :
  (∀ i, String.get i s ≠ Some separator) →
  utils.split separator s = [s].
Proof.
  induction s as [|c s IH]; intros Hfree; [done|]. simpl.
  rewrite decide_False by (intros ->; by apply (Hfree 0%nat)).
  rewrite IH; [done|]. intros i. apply (Hfree (S i)).
Qed.

Lemma split_at_separator (separator : ascii) (s rest : string) :
  (∀ i, String.get i s ≠ Some separator) →
  utils.split separator (s +:+ String separator rest)
  = s :: utils.split separator rest.
Proof.
  induction s as [|c s IH]; intros Hfree.
  - rewrite string_app_nil_l. simpl. by rewrite decide_True.
  - rewrite string_app_cons. simpl.
    rewrite decide_False by (intros ->; by apply (Hfree 0%nat)).
    rewrite IH; [done|]. intros i. apply (Hfree (S i)).
Qed.

Lemma split_head (separator : ascii) (s : string) :
  ∃ part parts, utils.split separator s = part :: parts.
Proof.
  induction s as [|c s (part & parts & IH)]; simpl; [by eexists _, _|].
  destruct (decide (c = separator)); [by eexists _, _|].
  rewrite IH. by eexists _, _.
Qed.

(** X17: a memo built as version-appId-orderId from parts without a dash
    parses back into its parts; an order id that itself has a dash comes
    back cut at its first dash; a memo without a dash is all version,
    with [appId] and [orderId] undefined; and [version] is never
    undefined. *)
Theorem parseMemo_round_trip (v a o : string) :
  (∀ i, String.get i v ≠ Some "-"%char) →
  (∀ i, String.get i a ≠ Some "-"%char) →
  (∀ i, String.get i o ≠ Some "-"%char) →
  utils.parseMemo (v +:+ "-" +:+ a +:+ "-" +:+ o)
  = {| version := Some v; appId := Some a; orderId := Some o |}
  ∧ (∀ rest,
       utils.parseMemo (v +:+ "-" +:+ a +:+ "-" +:+ o +:+ "-" +:+ rest)
       = {| version := Some v; appId := Some a; orderId := Some o |})
  ∧ utils.parseMemo v
    = {| version := Some v; appId := None; orderId := None |}
  ∧ (∀ memo, is_Some (version (utils.parseMemo memo))).
Proof.
  intros Hv Ha Ho. unfold utils.parseMemo.
  split; [|split; [|split]].
  - change ("-" +:+ a +:+ "-" +:+ o) with (String "-" (a +:+ "-" +:+ o)).
    change ("-" +:+ o) with (String "-" o).
    rewrite !split_at_separator by done.
    by rewrite split_no_separator.
  - intros rest.
    change ("-" +:+ a +:+ "-" +:+ o +:+ "-" +:+ rest)
      with (String "-" (a +:+ String "-" (o +:+ String "-" rest))).
    rewrite !split_at_separator by done. done.
  - by rewrite split_no_separator.
  - intros memo. destruct (split_head "-" memo) as (part & parts & ->).
    by eexists.
Qed.

Lemma parseMemo_round_trip_witness :
  utils.parseMemo "1-kik-xapp_kit_125"
  = {| version := Some "1"; appId := Some "kik";
       orderId := Some "xapp_kit_125" |}
  ∧ utils.parseMemo "1-kik-xapp-kit-125"
    = {| version := Some "1"; appId := Some "kik"; orderId := Some "xapp" |}.
Proof.
  destruct (parseMemo_round_trip "1" "kik" "xapp_kit_125")
    as (Hparts & _).
  { by intros [|[|]]. }
  { by intros [|[|[|[|]]]]. }
  { intros i. do 13 (destruct i as [|i]; [done|]). done. }
  destruct (parseMemo_round_trip "1" "kik" "xapp") as (_ & Hcut & _).
  { by intros [|[|]]. }
  { by intros [|[|[|[|]]]]. }
  { by intros [|[|[|[|[|]]]]]. }
  split; [exact Hparts|exact (Hcut "kit-125")].
Defined.

(** ** Lists without duplicates *)

Lemma removeDuplicates_into_spec {A} `{EqDecision A} (arr set : list A) :
  NoDup set →
  ∃ added,
    utils.removeDuplicates_into set arr = set ++ added
    ∧ NoDup (set ++ added)
    ∧ (∀ x, x ∈ added ↔ x ∈ arr ∧ x ∉ set)
    ∧ added `sublist_of` arr.
Proof.
  revert set. induction arr as [|x arr IH]; intros set Hset.
  - exists []. rewrite app_nil_r. split; [done|]. split; [done|].
    split; [|done]. intros x. split; [by intros ?%elem_of_nil|].
    by intros [?%elem_of_nil _].
  - simpl. destruct (decide (x ∈ set)) as [Hin|Hnotin].
    + destruct (IH set Hset) as (added & -> & Hnd & Hmem & Hsub).
      exists added. split; [done|]. split; [done|]. split.
      * intros y. rewrite Hmem, elem_of_cons. split; [tauto|].
        intros [[->|Hy] Hy']; [done|tauto].
      * by apply sublist_cons.
    + destruct (IH (set ++ [x])) as (added & -> & Hnd & Hmem & Hsub).
      { apply NoDup_app. split; [done|]. split; [|apply NoDup_singleton].
        by intros y Hy ->%list_elem_of_singleton. }
      exists (x :: added). rewrite <- app_assoc in *. simpl in *.
      split; [done|]. split; [done|]. split.
      * intros y.
        rewrite !elem_of_cons, Hmem, elem_of_app, list_elem_of_singleton.
        destruct (decide (y = x)) as [->|Hne].
        -- split; [intros _; split; [by left|done]|intros _; by left].
        -- split.
           ++ intros [?|[Hy Hy']]; [done|]. split; [by right|].
              intros ?. apply Hy'. by left.
           ++ intros [[?|Hy] Hy']; [done|]. right. split; [done|].
              by intros [?|?].
      * by apply sublist_skip.
Qed.

Lemma removeDuplicates_into_NoDup {A} `{EqDecision A} (arr set : list A) :
  NoDup arr → (∀ x, x ∈ arr → x ∉ set) →
  utils.removeDuplicates_into set arr = set ++ arr.
Proof.
  revert set. induction arr as [|x arr IH]; intros set Hnd Hfresh; simpl.
  - by rewrite app_nil_r.
  - apply NoDup_cons in Hnd as [Hx Hnd].
    rewrite decide_False by (apply Hfresh, list_elem_of_here).
    rewrite IH; [by rewrite <- app_assoc|done|].
    intros y Hy [Hin| ->%list_elem_of_singleton]%elem_of_app; [|done].
    by apply (Hfresh y); [apply list_elem_of_further|].
Qed.

(** X18: [removeDuplicates] keeps exactly the elements of the array, each
    once, in the order of their first occurrence; an array without
    duplicates comes back as it is, so removing twice is removing
    once. *)
Theorem removeDuplicates_spec {A} `{EqDecision A} (arr : list A) :
  NoDup (utils.removeDuplicates arr)
  ∧ (∀ x, x ∈ utils.removeDuplicates arr ↔ x ∈ arr)
  ∧ utils.removeDuplicates arr `sublist_of` arr
  ∧ head (utils.removeDuplicates arr) = head arr
  ∧ (NoDup arr → utils.removeDuplicates arr = arr)
  ∧ utils.removeDuplicates (utils.removeDuplicates arr)
    = utils.removeDuplicates arr.
Proof.
  unfold utils.removeDuplicates.
  destruct (removeDuplicates_into_spec arr []) as (added & Heq & Hnd & Hmem
                                                   & Hsub);
    [constructor|].
  simpl in Heq, Hnd. rewrite Heq.
  split; [done|]. split; [|split; [done|split; [|split]]].
  - intros x. rewrite Hmem. split; [tauto|]. intros Hx. split; [done|].
    by intros ?%elem_of_nil.
  - destruct arr as [|x arr]; [by rewrite <- Heq|].
    simpl in Heq. rewrite <- Heq.
    destruct (removeDuplicates_into_spec arr [x]) as (added' & -> & _);
      [apply NoDup_singleton|done].
  - intros Harr. rewrite <- Heq.
    by rewrite removeDuplicates_into_NoDup by (done || by intros x _ ?%elem_of_nil).
  - by rewrite removeDuplicates_into_NoDup by (done || by intros x _ ?%elem_of_nil).
Qed.

Lemma removeDuplicates_spec_witness :
  utils.removeDuplicates ["kik"; "kit"; "kik"; "tap"; "kit"]
  = ["kik"; "kit"; "tap"]
  ∧ utils.removeDuplicates ["tap"; "kik"] = ["tap"; "kik"].
Proof.
  split; [reflexivity|].
  apply (proj1 (proj2 (proj2 (proj2 (proj2
           (removeDuplicates_spec ["tap"; "kik"])))))).
  apply NoDup_cons. split; [|apply NoDup_singleton].
  rewrite list_elem_of_singleton. done.
Defined.

(** ** Batches *)

Lemma runner_spec {A} (list : list A) (chunkSize fuel index : nat) :
  (0 < chunkSize)%nat →
  (length list - index < fuel)%nat →
  ∃ calls,
    utils.runner list chunkSize fuel index = Some calls
    ∧ concat (fst <$> calls) = drop index list
    ∧ (∀ (j : nat) chunk i, calls !! j = Some (chunk, i) →
         i = (index + j * chunkSize)%nat
         ∧ chunk = take chunkSize (drop i list))
    ∧ (index < length list →
       ∀ chunk i, (chunk, i) ∈ calls → chunk ≠ [])%nat.
Proof.
  intros Hpos. revert index.
  induction fuel as [|fuel IH]; intros index Hfuel; [lia|].
  simpl. destruct (decide _) as [Hlast|Hmore].
  - eexists. split; [reflexivity|]. simpl. split; [by rewrite app_nil_r|].
    split.
    + intros [|j] chunk i; simpl; [|done]. intros [= <- <-].
      split; [lia|]. rewrite take_ge; [done|]. rewrite length_drop. lia.
    + intros Hin chunk i [= -> ->]%list_elem_of_singleton.
      intros Hnil%(f_equal length). rewrite length_drop in Hnil. simpl in Hnil.
      lia.
  - destruct (IH (index + chunkSize)%nat) as (calls & -> & Hconcat & Hcalls
                                              & Hfull); [lia|].
    eexists. split; [reflexivity|]. split; [|split].
    + rewrite fmap_cons. cbn [concat fst]. rewrite Hconcat.
      unfold utils.slice.
      replace (index + chunkSize - index)%nat with chunkSize by lia.
      rewrite <- (take_drop chunkSize (drop index list)) at 2.
      by rewrite drop_drop.
    + intros [|j] chunk i; simpl.
      * intros [= <- <-]. split; [lia|]. unfold utils.slice. f_equal. lia.
      * intros Hj. destruct (Hcalls j chunk i Hj) as [-> ->].
        split; [lia|done].
    + intros Hin chunk i [[= -> ->]|Hcall]%elem_of_cons.
      * unfold utils.slice. intros Hnil%(f_equal length).
        rewrite length_take, length_drop in Hnil. simpl in Hnil. lia.
      * apply (Hfull ltac:(lia) chunk i Hcall).
Qed.

(** X19: with chunks of at least one element, [batch] ends within one call
    per element (and one more), and its calls cut the list into
    consecutive chunks: call number [j] gets the elements from index
    [j * chunkSize] on, [chunkSize] of them or what is left, together
    with that index; put end to end the chunks are the list.  An empty
    list still gets one call, with an empty chunk; otherwise no chunk is
    empty. *)
Theorem batch_chunks {A} (list : list A) (chunkSize fuel : nat) :
  (0 < chunkSize)%nat →
  (length list < fuel)%nat →
  ∃ calls,
    utils.batch list chunkSize fuel = Some calls
    ∧ concat (fst <$> calls) = list
    ∧ (∀ (j : nat) chunk i, calls !! j = Some (chunk, i) →
         i = (j * chunkSize)%nat
         ∧ chunk = take chunkSize (drop i list))
    ∧ (list = [] → calls = [([], 0%nat)])
    ∧ (list ≠ [] → ∀ chunk i, (chunk, i) ∈ calls → chunk ≠ []).
Proof.
  intros Hpos Hfuel. unfold utils.batch.
  destruct (runner_spec list chunkSize fuel 0 Hpos) as (calls & Hrun & Hconcat
                                                        & Hcalls & Hfull);
    [lia|].
  exists calls. split; [exact Hrun|]. split; [exact Hconcat|]. split; [|split].
  - intros j chunk i Hj. by destruct (Hcalls j chunk i Hj) as [-> ->].
  - intros ->. destruct fuel as [|fuel]; [simpl in Hfuel; lia|].
    simpl in Hrun. rewrite decide_True in Hrun by (simpl; lia).
    by injection Hrun as <-.
  - intros Hne. apply Hfull. destruct list; [done|simpl; lia].
Qed.

(** X20: with chunks of no element, [batch] on a list that is not empty never
    ends: [runner] calls back with an empty chunk and reschedules itself
    at the same index, time after time. *)
Theorem batch_zero_chunk {A} (list : list A) (fuel : nat) :
  list ≠ [] → utils.batch list 0 fuel = None.
Proof.
  intros Hne. unfold utils.batch.
  induction fuel as [|fuel IH]; [done|]. simpl.
  rewrite decide_False by (destruct list; [done|simpl; lia]).
  by rewrite IH.
Qed.

Lemma batch_chunks_witness :
  utils.batch ["a"; "b"; "c"; "d"; "e"] 2 6
  = Some [(["a"; "b"], 0%nat); (["c"; "d"], 2%nat); (["e"], 4%nat)]
  ∧ utils.batch (@nil string) 2 1 = Some [([], 0%nat)].
Proof.
  destruct (batch_chunks ["a"; "b"; "c"; "d"; "e"] 2 6)
    as (calls & Hrun & _); [lia|simpl; lia|].
  destruct (batch_chunks (@nil string) 2 1)
    as (calls' & Hrun' & _ & _ & Hempty & _); [lia|simpl; lia|].
  split.
  - rewrite Hrun. f_equal.
    assert (utils.batch ["a"; "b"; "c"; "d"; "e"] 2 6
            = Some [(["a"; "b"], 0%nat); (["c"; "d"], 2%nat); (["e"], 4%nat)])
      as Hcalls by reflexivity.
    rewrite Hrun in Hcalls. by injection Hcalls.
  - rewrite Hrun'. f_equal. by apply Hempty.
Defined.

Lemma batch_zero_chunk_witness :
  utils.batch ["a"; "b"] 0 1000 = None.
Proof. by apply (batch_zero_chunk ["a"; "b"] 1000). Defined.

(** ** Retries *)

Lemma retry_from_spec {A} (fn : nat → A) (predicate : A → bool)
    (errorMessage : option string) (remaining start : nat) :
  (∀ k, (k < remaining)%nat →
     predicate (fn (start + k)%nat) = true →
     (∀ j, (j < k)%nat → predicate (fn (start + j)%nat) = false) →
     utils.retry_from fn predicate errorMessage remaining start
     = (utils.Done (fn (start + k)%nat), S (start + k)))
  ∧ ((∀ k, (k < remaining)%nat → predicate (fn (start + k)%nat) = false) →
     utils.retry_from fn predicate errorMessage remaining start
     = (utils.Raised (utils.string_or errorMessage "failed"),
        (start + remaining)%nat)).
Proof.
  revert start. induction remaining as [|remaining IH]; intros start.
  - split; [intros k; lia|]. intros _. simpl. by rewrite Nat.add_0_r.
  - destruct (IH (S start)) as [IHfound IHnone]. split.
    + intros [|k] Hk Htrue Hfalse; simpl.
      * rewrite Nat.add_0_r in *. by rewrite Htrue.
      * pose proof (Hfalse 0%nat ltac:(lia)) as Hfirst.
        rewrite Nat.add_0_r in Hfirst. rewrite Hfirst.
        replace (start + S k)%nat with (S start + k)%nat in * by lia.
        apply IHfound; [lia|done|].
        intros j Hj. replace (S start + j)%nat with (start + S j)%nat by lia.
        apply Hfalse. lia.
    + intros Hfalse. simpl.
      pose proof (Hfalse 0%nat ltac:(lia)) as Hfirst.
      rewrite Nat.add_0_r in Hfirst. rewrite Hfirst.
      replace (start + S remaining)%nat with (S start + remaining)%nat by lia.
      apply IHnone. intros k Hk.
      replace (S start + k)%nat with (start + S k)%nat by lia.
      apply Hfalse. lia.
Qed.

(** X21: [retry] returns what the first call of [fn] that satisfies the
    predicate resolved to, and calls [fn] no more after it; when none of
    the first 30 calls satisfies it, [retry] throws [errorMessage]
    ("failed" when there is none, or an empty one) after exactly 30
    calls. *)
Theorem retry_first_success {A} (fn : nat → A) (predicate : A → bool)
    (errorMessage : option string) :
  (∀ k, (k < 30)%nat →
     predicate (fn k) = true →
     (∀ j, (j < k)%nat → predicate (fn j) = false) →
     utils.retry fn predicate errorMessage = (utils.Done (fn k), S k))
  ∧ ((∀ k, (k < 30)%nat → predicate (fn k) = false) →
     utils.retry fn predicate errorMessage
     = (utils.Raised (utils.string_or errorMessage "failed"), 30%nat)).
Proof.
  unfold utils.retry.
  destruct (retry_from_spec fn predicate errorMessage 30 0) as [Hfound Hnone].
  split.
  - intros k Hk Htrue Hfalse. by apply (Hfound k).
  - intros Hfalse. by apply Hnone.
Qed.

Lemma retry_first_success_witness :
  utils.retry (λ call : nat, (call * 10)%nat) (λ obj, bool_decide (25 ≤ obj)%nat)
    None
  = (utils.Done 30%nat, 4%nat)
  ∧ utils.retry (λ call : nat, call) (λ obj, bool_decide (30 ≤ obj)%nat)
      (Some EmptyString)
    = (utils.Raised "failed", 30%nat).
Proof.
  split.
  - apply (proj1 (retry_first_success (λ call : nat, (call * 10)%nat)
                    (λ obj, bool_decide (25 ≤ obj)%nat) None) 3%nat).
    + lia.
    + reflexivity.
    + intros j Hj. apply bool_decide_eq_false. lia.
  - apply (proj2 (retry_first_success (λ call : nat, call)
                    (λ obj, bool_decide (30 ≤ obj)%nat) (Some EmptyString))).
    intros k Hk. apply bool_decide_eq_false. lia.
Defined.

(** ** Random integers *)



(** ** From opened to pending *)

Section lifecycle.

Variable env : Env.

(** A submission that returns, on an opened order, has saved it as
    pending. *)
Lemma submitOrder_returned (w w1 : World) (o : db.Order) (p : Order.t)
    (form : option string) (walletAddress appId : string) :
  primary_key (orders w) →
  o ∈ orders w →
  db.status o = db.opened →
  orders.submitOrder env (db.id o) form walletAddress appId w
    = (Returned p, w1) →
  orders w1
    = db.save (db.setStatus db.pending (clock env (S (ticks w))) o) (orders w)
  ∧ background w1 = background w
  ∧ ticks w1 = S (S (ticks w))
  ∧ Order.status p = db.pending.
Proof.
  intros Hpk Hin Hs. unfold orders.submitOrder. run.
  rewrite (findOne_by_id_elem _ _ Hpk Hin).
  rewrite decide_False by (intros Hne; by apply Hne).
  destruct (orders.after_deadline _ _); [done|].
  destruct (offerDb.findOne _ _) as [offer|]; [|done].
  destruct (offerDb.type offer).
  - destruct (isValid env _ _); [|done]. simpl.
    unfold orders.payment_payTo. simpl.
    destruct (payTo env _ _ _ _); [|done].
    match goal with |- orders.orderDbToApi ?x ?w2 = _ → _ =>
      destruct (orderDbToApi_returns x w2) as (p' & -> & _ & Hst & _);
        [done|] end.
    intros [= <- <-]. by repeat split.
  - simpl.
    match goal with |- orders.orderDbToApi ?x ?w2 = _ → _ =>
      destruct (orderDbToApi_returns x w2) as (p' & -> & _ & Hst & _);
        [done|] end.
    intros [= <- <-]. by repeat split.
Qed.

(** X23: submitting takes an order from hidden and cancellable to shown and
    kept: before an accepted submission [getOrder] refuses the opened
    order; after it [cancelOrder] refuses the order and changes nothing,
    and [getOrder] shows it as pending for the 45 seconds that follow the
    status change. *)
Theorem submitOrder_then_read_or_cancel (w w1 : World) (o : db.Order)
    (p : Order.t) (form : option string) (walletAddress appId : string) :
  primary_key (orders w) →
  o ∈ orders w →
  db.status o = db.opened →
  orders.submitOrder env (db.id o) form walletAddress appId w
    = (Returned p, w1) →
  orders.getOrder env (db.id o) w = (Thrown (NoSuchOrderOrOpen (db.id o)), w)
  ∧ orders.cancelOrder (db.id o) w1
    = (Thrown (NoSuchOpenOrder (db.id o)), w1)
  ∧ (clock env (ticks w1) ≤ clock env (S (ticks w)) + 45 * 1000 →
     ∃ shown w2,
       orders.getOrder env (db.id o) w1 = (Returned shown, w2)
       ∧ Order.id shown = db.id o
       ∧ Order.status shown = db.pending
       ∧ Order.completion_date shown = clock env (S (ticks w))
       ∧ orders w2 = orders w1
       ∧ background w2 = background w1).
Proof.
  intros Hpk Hin Hs Hsubmit.
  destruct (submitOrder_returned w w1 o p form walletAddress appId
              Hpk Hin Hs Hsubmit) as (Hrows & _ & _ & _).
  set (pending := db.setStatus db.pending (clock env (S (ticks w))) o) in *.
  assert (primary_key (orders w1)) as Hpk1
    by (rewrite Hrows; by apply save_primary_key).
  assert (pending ∈ orders w1) as Hin1
    by (rewrite Hrows; apply elem_of_save).
  split; [|split].
  - unfold orders.getOrder. run.
    rewrite (getOne_other_status _ _ (Some (db.IsNot db.opened)) Hpk Hin);
      [done|]. simpl. by intros Hne.
  - unfold orders.cancelOrder. run.
    change (db.id o) with (db.id pending).
    by rewrite (getOne_other_status _ _ (Some (db.Is db.opened)) Hpk1 Hin1).
  - intros Hintime. unfold orders.getOrder. run.
    change (db.id o) with (db.id pending).
    rewrite (getOne_elem _ _ (Some (db.IsNot db.opened)) Hpk1 Hin1) by done.
    unfold orders.checkIfTimedOut. rewrite decide_True by done. run.
    unfold db.date_lt, db.seconds.
    replace (clock env (S (ticks w)) + 45 * 1000 <? clock env (ticks w1))
      with false by (symmetry; apply Z.ltb_ge; lia).
    simpl.
    match goal with |- context [orders.orderDbToApi pending ?w2] =>
      destruct (orderDbToApi_returns pending w2)
        as (shown & -> & Hid & Hst & Hdate); [done|] end.
    eexists shown, _. split; [reflexivity|]. by repeat split.
Qed.

End lifecycle.

Lemma submitOrder_then_read_or_cancel_witness :
  let w := example.world [example.order "T1" "U1" db.opened 400000 None] in
  let submitted := orders.submitOrder example.env "T1" None "GWALLET" "app" w in
  orders.getOrder example.env "T1" w = (Thrown (NoSuchOrderOrOpen "T1"), w)
  ∧ orders.cancelOrder "T1" submitted.2
    = (Thrown (NoSuchOpenOrder "T1"), submitted.2)
  ∧ ∃ shown w2,
      orders.getOrder example.env "T1" submitted.2 = (Returned shown, w2)
      ∧ Order.status shown = db.pending.
Proof.
  intros w submitted.
  destruct (submitOrder_then_read_or_cancel example.env w submitted.2
              (example.order "T1" "U1" db.opened 400000 None)
              {| Order.id := "T1"; Order.offer_id := "O1";
                 Order.error := None; Order.content := None;
                 Order.status := db.pending;
                 Order.completion_date := 1000001;
                 Order.title := "poll";
                 Order.description := "answer a poll";
                 Order.amount := 10; Order.blockchain_data := None;
                 Order.call_to_action := None;
                 Order.offer_type := Some offerDb.earn |}
              None "GWALLET" "app")
    as (Hhidden & Hkept & Hshown).
  - apply NoDup_singleton.
  - apply list_elem_of_here.
  - reflexivity.
  - reflexivity.
  - split; [exact Hhidden|]. split; [exact Hkept|].
    destruct Hshown as (shown & w2 & Hget & _ & Hst & _); [by vm_compute|].
    by exists shown, w2.
Defined.
